(** * MYOB Dash: the gameplay rules of [GameScene] (src/game.js)

    A shallow embedding of the per-frame simulation of the endless runner:
    movement (coyote time, jump buffer, fast fall), the difficulty ramp and
    the spawn cadences, the combo and scoring engine, the power-up state
    machine, collision outcomes and the run lifecycle.

    JavaScript numbers are modelled by exact rationals ([Q]) for times,
    speeds and positions and by integers ([Z]) for counters and the score.
    Rendering, audio, tweens and the positions of pooled entities are left
    out; of the effects only the particle bursts and the squash/stretch
    tweens are logged, to count how often a jump block ran.  The physics
    engine and the clock are the environment: the player's body, the
    process callback of a collider and the firing of timers follow the
    Phaser 3 interface the scene is written against. *)

From Stdlib Require Import ZArith QArith Qminmax Lqa Lia List Bool.
Import ListNotations.

Open Scope Q_scope.

(** ** Numeric tests on rationals *)

Definition Qltb (x y : Q) : bool := negb (Qle_bool y x).

(** ** Constants of the constructor *)

Definition coyoteTimeDuration : Q := 100.
Definition jumpBufferDuration : Q := 100.
Definition baseScrollSpeed : Q := 250.
Definition maxScrollSpeed : Q := 750.
Definition speedIncreaseFactor : Q := 6.
Definition baseSpawnDelay : Q := 1700.
Definition minSpawnDelay : Q := 400.
Definition spawnDecreaseFactor : Q := 18.
Definition powerUpDuration : Q := 10000.
Definition powerUpSpeedBoost : Q := 1.6.

(** ** Data model *)

Inductive PowerUpType := speed | shield.

(** Effects handed to the effects capability, newest first. *)
Inductive Effect :=
| JumpDust          (* jumpEmitter.explode(8, ...) *)
| DoubleJumpBurst   (* doubleJumpEmitter.explode(12, ...) *)
| CoinBurst         (* coinEmitter.explode(15, ...) *)
| SquashTween       (* triggerSquashTween() *)
| StretchTween.     (* triggerStretchTween() *)

Definition Effect_eqb (a b : Effect) : bool :=
  match a, b with
  | JumpDust, JumpDust | DoubleJumpBurst, DoubleJumpBurst
  | CoinBurst, CoinBurst | SquashTween, SquashTween
  | StretchTween, StretchTween => true
  | _, _ => false
  end.

(** A Phaser timer event: its (adjustable) delay and whether it repeats. *)
Record TimerEvent := { delay : Q; loop : bool }.

(** The player's sprite and arcade body, as the physics engine leaves them
    before a handler runs; [y] grows downwards. *)
Record Player := {
  player_y : Q;
  player_height : Q;
  velocityY : Q;
  touching_down : bool;
  body_bottom : Q
}.

Record Coin := { coin_active : bool }.
Record Enemy := { enemy_flying : bool }.
Record Pit := { pit_body_top : Q }.

Record Scoring := {
  score : Z;
  highScore : Z;
  scoreMultiplier : Z;
  comboCount : Z;
  lastCoinCollectTime : Q;
  coinsCollectedForPowerUp : Z
}.

Record JumpState := {
  hasDoubleJumped : bool;
  jumpDownActive : bool;
  coyoteTimeCounter : Q;
  jumpBufferCounter : Q;
  wasInAir : bool
}.

Record Difficulty := { scrollSpeed : Q; spawnDelay : Q }.

Record Timers := {
  coinSpawnTimer : option TimerEvent;
  enemySpawnTimer : option TimerEvent;
  gapSpawnTimer : option TimerEvent;
  powerUpTimer : option TimerEvent;
  powerUpFlashEvent : option TimerEvent;
  comboTimer : option TimerEvent
}.

Record PowerUp := {
  powerUpActive : bool;
  activePowerUpType : option PowerUpType
}.

Record PlayerScale := {
  playerScaleX : Q;
  playerScaleY : Q;
  playerOriginalWidth : Q;
  playerOriginalHeight : Q
}.

(** The fields of the scene object that the gameplay rules read or write.
    [data] is the scene's data manager entry 'playerScaleData',
    [scale_height] is [this.scale.height]. *)
Record Scene := {
  scoring : Scoring;
  jump : JumpState;
  difficulty : Difficulty;
  timers : Timers;
  powerUp : PowerUp;
  gameOver : bool;
  player : Player;
  playerScale : PlayerScale;
  data : option PlayerScale;
  scale_height : Q;
  fx : list Effect
}.

(** *** Field updates *)

Definition set_scoring (v : Scoring) (s : Scene) : Scene :=
  {| scoring := v; jump := jump s; difficulty := difficulty s;
     timers := timers s; powerUp := powerUp s; gameOver := gameOver s;
     player := player s; playerScale := playerScale s; data := data s;
     scale_height := scale_height s; fx := fx s |}.

Definition set_jump (v : JumpState) (s : Scene) : Scene :=
  {| scoring := scoring s; jump := v; difficulty := difficulty s;
     timers := timers s; powerUp := powerUp s; gameOver := gameOver s;
     player := player s; playerScale := playerScale s; data := data s;
     scale_height := scale_height s; fx := fx s |}.

Definition set_difficulty (v : Difficulty) (s : Scene) : Scene :=
  {| scoring := scoring s; jump := jump s; difficulty := v;
     timers := timers s; powerUp := powerUp s; gameOver := gameOver s;
     player := player s; playerScale := playerScale s; data := data s;
     scale_height := scale_height s; fx := fx s |}.

Definition set_timers (v : Timers) (s : Scene) : Scene :=
  {| scoring := scoring s; jump := jump s; difficulty := difficulty s;
     timers := v; powerUp := powerUp s; gameOver := gameOver s;
     player := player s; playerScale := playerScale s; data := data s;
     scale_height := scale_height s; fx := fx s |}.

Definition set_powerUp (v : PowerUp) (s : Scene) : Scene :=
  {| scoring := scoring s; jump := jump s; difficulty := difficulty s;
     timers := timers s; powerUp := v; gameOver := gameOver s;
     player := player s; playerScale := playerScale s; data := data s;
     scale_height := scale_height s; fx := fx s |}.

Definition set_gameOver (v : bool) (s : Scene) : Scene :=
  {| scoring := scoring s; jump := jump s; difficulty := difficulty s;
     timers := timers s; powerUp := powerUp s; gameOver := v;
     player := player s; playerScale := playerScale s; data := data s;
     scale_height := scale_height s; fx := fx s |}.

Definition set_player (v : Player) (s : Scene) : Scene :=
  {| scoring := scoring s; jump := jump s; difficulty := difficulty s;
     timers := timers s; powerUp := powerUp s; gameOver := gameOver s;
     player := v; playerScale := playerScale s; data := data s;
     scale_height := scale_height s; fx := fx s |}.

Definition set_playerScale (v : PlayerScale) (s : Scene) : Scene :=
  {| scoring := scoring s; jump := jump s; difficulty := difficulty s;
     timers := timers s; powerUp := powerUp s; gameOver := gameOver s;
     player := player s; playerScale := v; data := data s;
     scale_height := scale_height s; fx := fx s |}.

Definition set_data (v : option PlayerScale) (s : Scene) : Scene :=
  {| scoring := scoring s; jump := jump s; difficulty := difficulty s;
     timers := timers s; powerUp := powerUp s; gameOver := gameOver s;
     player := player s; playerScale := playerScale s; data := v;
     scale_height := scale_height s; fx := fx s |}.

(** An effect notification: fire and forget, only logged. *)
Definition emit (e : Effect) (s : Scene) : Scene :=
  {| scoring := scoring s; jump := jump s; difficulty := difficulty s;
     timers := timers s; powerUp := powerUp s; gameOver := gameOver s;
     player := player s; playerScale := playerScale s; data := data s;
     scale_height := scale_height s; fx := e :: fx s |}.

(** [this.player.setVelocityY(v)] *)
Definition setVelocityY (v : Q) (s : Scene) : Scene :=
  let p := player s in
  set_player {| player_y := player_y p; player_height := player_height p;
                velocityY := v; touching_down := touching_down p;
                body_bottom := body_bottom p |} s.

(** [this.player.y = v] *)
Definition setPlayerY (v : Q) (s : Scene) : Scene :=
  let p := player s in
  set_player {| player_y := v; player_height := player_height p;
                velocityY := velocityY p; touching_down := touching_down p;
                body_bottom := body_bottom p |} s.

(** How many times an effect occurs in a log. *)
Definition count_fx (e : Effect) (l : list Effect) : nat :=
  length (filter (Effect_eqb e) l).

(** *** Updates of the nested records *)

Definition set_score (v : Z) (c : Scoring) : Scoring :=
  {| score := v; highScore := highScore c;
     scoreMultiplier := scoreMultiplier c; comboCount := comboCount c;
     lastCoinCollectTime := lastCoinCollectTime c;
     coinsCollectedForPowerUp := coinsCollectedForPowerUp c |}.

Definition set_scoreMultiplier (v : Z) (c : Scoring) : Scoring :=
  {| score := score c; highScore := highScore c;
     scoreMultiplier := v; comboCount := comboCount c;
     lastCoinCollectTime := lastCoinCollectTime c;
     coinsCollectedForPowerUp := coinsCollectedForPowerUp c |}.

Definition set_comboCount (v : Z) (c : Scoring) : Scoring :=
  {| score := score c; highScore := highScore c;
     scoreMultiplier := scoreMultiplier c; comboCount := v;
     lastCoinCollectTime := lastCoinCollectTime c;
     coinsCollectedForPowerUp := coinsCollectedForPowerUp c |}.

Definition set_lastCoinCollectTime (v : Q) (c : Scoring) : Scoring :=
  {| score := score c; highScore := highScore c;
     scoreMultiplier := scoreMultiplier c; comboCount := comboCount c;
     lastCoinCollectTime := v;
     coinsCollectedForPowerUp := coinsCollectedForPowerUp c |}.

Definition set_coinsCollectedForPowerUp (v : Z) (c : Scoring) : Scoring :=
  {| score := score c; highScore := highScore c;
     scoreMultiplier := scoreMultiplier c; comboCount := comboCount c;
     lastCoinCollectTime := lastCoinCollectTime c;
     coinsCollectedForPowerUp := v |}.

Definition set_hasDoubleJumped (v : bool) (j : JumpState) : JumpState :=
  {| hasDoubleJumped := v; jumpDownActive := jumpDownActive j;
     coyoteTimeCounter := coyoteTimeCounter j;
     jumpBufferCounter := jumpBufferCounter j; wasInAir := wasInAir j |}.

Definition set_jumpDownActive (v : bool) (j : JumpState) : JumpState :=
  {| hasDoubleJumped := hasDoubleJumped j; jumpDownActive := v;
     coyoteTimeCounter := coyoteTimeCounter j;
     jumpBufferCounter := jumpBufferCounter j; wasInAir := wasInAir j |}.

Definition set_coyoteTimeCounter (v : Q) (j : JumpState) : JumpState :=
  {| hasDoubleJumped := hasDoubleJumped j;
     jumpDownActive := jumpDownActive j; coyoteTimeCounter := v;
     jumpBufferCounter := jumpBufferCounter j; wasInAir := wasInAir j |}.

Definition set_jumpBufferCounter (v : Q) (j : JumpState) : JumpState :=
  {| hasDoubleJumped := hasDoubleJumped j;
     jumpDownActive := jumpDownActive j;
     coyoteTimeCounter := coyoteTimeCounter j;
     jumpBufferCounter := v; wasInAir := wasInAir j |}.

Definition set_wasInAir (v : bool) (j : JumpState) : JumpState :=
  {| hasDoubleJumped := hasDoubleJumped j;
     jumpDownActive := jumpDownActive j;
     coyoteTimeCounter := coyoteTimeCounter j;
     jumpBufferCounter := jumpBufferCounter j; wasInAir := v |}.

Definition set_coinSpawnTimer (v : option TimerEvent) (t : Timers) : Timers :=
  {| coinSpawnTimer := v; enemySpawnTimer := enemySpawnTimer t;
     gapSpawnTimer := gapSpawnTimer t; powerUpTimer := powerUpTimer t;
     powerUpFlashEvent := powerUpFlashEvent t; comboTimer := comboTimer t |}.

Definition set_enemySpawnTimer (v : option TimerEvent) (t : Timers) : Timers :=
  {| coinSpawnTimer := coinSpawnTimer t; enemySpawnTimer := v;
     gapSpawnTimer := gapSpawnTimer t; powerUpTimer := powerUpTimer t;
     powerUpFlashEvent := powerUpFlashEvent t; comboTimer := comboTimer t |}.

Definition set_gapSpawnTimer (v : option TimerEvent) (t : Timers) : Timers :=
  {| coinSpawnTimer := coinSpawnTimer t;
     enemySpawnTimer := enemySpawnTimer t;
     gapSpawnTimer := v; powerUpTimer := powerUpTimer t;
     powerUpFlashEvent := powerUpFlashEvent t; comboTimer := comboTimer t |}.

Definition set_powerUpTimer (v : option TimerEvent) (t : Timers) : Timers :=
  {| coinSpawnTimer := coinSpawnTimer t;
     enemySpawnTimer := enemySpawnTimer t;
     gapSpawnTimer := gapSpawnTimer t; powerUpTimer := v;
     powerUpFlashEvent := powerUpFlashEvent t; comboTimer := comboTimer t |}.

Definition set_powerUpFlashEvent (v : option TimerEvent) (t : Timers) : Timers :=
  {| coinSpawnTimer := coinSpawnTimer t;
     enemySpawnTimer := enemySpawnTimer t;
     gapSpawnTimer := gapSpawnTimer t; powerUpTimer := powerUpTimer t;
     powerUpFlashEvent := v; comboTimer := comboTimer t |}.

Definition set_comboTimer (v : option TimerEvent) (t : Timers) : Timers :=
  {| coinSpawnTimer := coinSpawnTimer t;
     enemySpawnTimer := enemySpawnTimer t;
     gapSpawnTimer := gapSpawnTimer t; powerUpTimer := powerUpTimer t;
     powerUpFlashEvent := powerUpFlashEvent t; comboTimer := v |}.

Definition upd_scoring (f : Scoring -> Scoring) (s : Scene) : Scene :=
  set_scoring (f (scoring s)) s.
Definition upd_jump (f : JumpState -> JumpState) (s : Scene) : Scene :=
  set_jump (f (jump s)) s.
Definition upd_timers (f : Timers -> Timers) (s : Scene) : Scene :=
  set_timers (f (timers s)) s.

(** [timer.delay = v] on a timer that exists; nothing on [null]. *)
Definition set_delay (v : Q) (t : option TimerEvent) : option TimerEvent :=
  match t with
  | Some e => Some {| delay := v; loop := loop e |}
  | None => None
  end.

Definition noPowerUp : PowerUp :=
  {| powerUpActive := false; activePowerUpType := None |}.

(** ** Operations of the scene *)

(** [cleanupTimers]: every timer is removed and its field nulled. *)
Definition cleanupTimers (s : Scene) : Scene :=
  set_timers {| coinSpawnTimer := None; enemySpawnTimer := None;
                gapSpawnTimer := None; powerUpTimer := None;
                powerUpFlashEvent := None; comboTimer := None |} s.

(** [startSpawning]: the three repeating spawn timers. *)
Definition startSpawning (s : Scene) : Scene :=
  let d := spawnDelay (difficulty s) in
  let s := upd_timers (set_coinSpawnTimer
             (Some {| delay := d * 1.1; loop := true |})) s in
  let s := upd_timers (set_enemySpawnTimer
             (Some {| delay := d; loop := true |})) s in
  upd_timers (set_gapSpawnTimer
             (Some {| delay := d * 2.0; loop := true |})) s.

(** [endGame] *)
Definition endGame (s : Scene) : Scene :=
  if gameOver s then s else
  let s := set_gameOver true s in
  let s := cleanupTimers s in
  if powerUpActive (powerUp s) then set_powerUp noPowerUp s else s.

(** The sprite made by [this.physics.add.sprite(playerX, groundY - 50, key)]
    with [groundY = height * 0.9]: at rest, without contact, the frame
    height of the texture unchanged. *)
Definition newPlayer (s : Scene) : Player :=
  let y0 := scale_height s * 0.9 - 50 in
  {| player_y := y0; player_height := player_height (player s);
     velocityY := 0; touching_down := false;
     body_bottom := y0 + player_height (player s) / 2 |}.

(** [create]: the reset block, the new player, the saved scale, the spawn
    timers.  Without saved scale data (first run) the scale is derived from
    the loaded texture and the constructor's value is kept here. *)
Definition create (s : Scene) : Scene :=
  let s := upd_scoring (set_score 0) s in
  let s := set_gameOver false s in
  let s := set_difficulty {| scrollSpeed := baseScrollSpeed;
                             spawnDelay := baseSpawnDelay |} s in
  let s := set_powerUp {| powerUpActive := false;
             activePowerUpType := activePowerUpType (powerUp s) |} s in
  let s := upd_scoring (set_coinsCollectedForPowerUp 0) s in
  let s := upd_jump (set_hasDoubleJumped false) s in
  let s := upd_jump (set_jumpDownActive false) s in
  let s := upd_jump (set_coyoteTimeCounter 0) s in
  let s := upd_jump (set_jumpBufferCounter 0) s in
  let s := upd_jump (set_wasInAir false) s in
  let s := cleanupTimers s in
  let s := set_powerUp {| powerUpActive := powerUpActive (powerUp s);
                          activePowerUpType := None |} s in
  let s := set_player (newPlayer s) s in
  let s := match data s with
           | Some scaleData => set_playerScale scaleData s
           | None => s
           end in
  startSpawning s.

(** The scene object as the constructor leaves it, for a canvas of height
    [h] and a player texture of frame height [ph]. *)
Definition constructed (h ph : Q) : Scene :=
  {| scoring := {| score := 0; highScore := 0; scoreMultiplier := 1;
                   comboCount := 0; lastCoinCollectTime := 0;
                   coinsCollectedForPowerUp := 0 |};
     jump := {| hasDoubleJumped := false; jumpDownActive := false;
                coyoteTimeCounter := 0; jumpBufferCounter := 0;
                wasInAir := false |};
     difficulty := {| scrollSpeed := 0; spawnDelay := 0 |};
     timers := {| coinSpawnTimer := None; enemySpawnTimer := None;
                  gapSpawnTimer := None; powerUpTimer := None;
                  powerUpFlashEvent := None; comboTimer := None |};
     powerUp := noPowerUp;
     gameOver := false;
     player := {| player_y := 0; player_height := ph; velocityY := 0;
                  touching_down := false; body_bottom := 0 |};
     playerScale := {| playerScaleX := 1; playerScaleY := 1;
                       playerOriginalWidth := 0;
                       playerOriginalHeight := 0 |};
     data := None;
     scale_height := h;
     fx := [] |}.

(** *** The frame tick: [update(time, delta)] *)

(** The ground-jump statements, written out four times in the source (the
    landing block and the grounded branch of [update], and the same two in
    [handleJumpInput]). *)
Definition groundJump (s : Scene) : Scene :=
  let s := setVelocityY (-575) s in
  let s := upd_jump (set_coyoteTimeCounter 0) s in
  let s := upd_jump (set_jumpBufferCounter 0) s in
  let s := emit JumpDust s in
  emit StretchTween s.

(** The double-jump statements of [update] and [handleJumpInput]. *)
Definition doubleJump (s : Scene) : Scene :=
  let s := setVelocityY (-500) s in
  let s := upd_jump (set_hasDoubleJumped true) s in
  let s := upd_jump (set_coyoteTimeCounter 0) s in
  let s := upd_jump (set_jumpBufferCounter 0) s in
  let s := emit DoubleJumpBurst s in
  emit StretchTween s.

(** "Landing Logic" *)
Definition landingLogic (touchingGround : bool) (delta : Q) (s : Scene)
  : Scene :=
  if touchingGround then
    let s := if wasInAir (jump s)
             then upd_jump (set_wasInAir false) (emit SquashTween s)
             else s in
    let s := upd_jump (set_hasDoubleJumped false) s in
    let s := upd_jump (set_jumpDownActive false) s in
    let s := upd_jump (set_coyoteTimeCounter coyoteTimeDuration) s in
    if Qltb 0 (jumpBufferCounter (jump s)) then groundJump s else s
  else
    let s := upd_jump (set_wasInAir false) s in
    upd_jump (fun j => set_coyoteTimeCounter (coyoteTimeCounter j - delta) j) s.

(** "Player Jump Logic" *)
Definition jumpLogic (touchingGround isJumpKeyDown : bool) (s : Scene)
  : Scene :=
  if isJumpKeyDown then
    if touchingGround || Qltb 0 (coyoteTimeCounter (jump s)) then
      groundJump s
    else if negb touchingGround && negb (hasDoubleJumped (jump s)) then
      doubleJump s
    else if negb touchingGround then
      upd_jump (set_jumpBufferCounter jumpBufferDuration) s
    else s
  else s.

(** "Decrement jump buffer counter", with "Jump down" as its else branch. *)
Definition bufferAndJumpDown (touchingGround : bool) (delta : Q)
  (isDownKeyDown : bool) (s : Scene) : Scene :=
  if Qltb 0 (jumpBufferCounter (jump s)) then
    upd_jump (fun j => set_jumpBufferCounter (jumpBufferCounter j - delta) j) s
  else if isDownKeyDown && negb touchingGround then
    let s := setVelocityY 500 s in
    upd_jump (set_jumpDownActive true) s
  else s.

(** "Player Vertical Bounds Check" *)
Definition verticalBounds (s : Scene) : Scene :=
  let s := if Qltb (player_y (player s)) (- player_height (player s))
           then setVelocityY 0 (setPlayerY (- player_height (player s)) s)
           else s in
  if Qltb (scale_height s + player_height (player s)) (player_y (player s))
  then endGame s else s.

(** [increaseDifficulty(deltaSeconds)] *)
Definition increaseDifficulty (deltaSeconds : Q) (s : Scene) : Scene :=
  let d := difficulty s in
  let speed' := Qmin (scrollSpeed d + speedIncreaseFactor * deltaSeconds)
                     maxScrollSpeed in
  let delay' := Qmax (spawnDelay d - spawnDecreaseFactor * deltaSeconds)
                     minSpawnDelay in
  let s := set_difficulty {| scrollSpeed := speed';
                             spawnDelay := delay' |} s in
  let s := upd_timers (fun t =>
             set_coinSpawnTimer (set_delay (delay' * 1.1) (coinSpawnTimer t)) t)
             s in
  let s := upd_timers (fun t =>
             set_enemySpawnTimer (set_delay delay' (enemySpawnTimer t)) t) s in
  upd_timers (fun t =>
    set_gapSpawnTimer
      (set_delay (Qmax (delay' * 1.8) (minSpawnDelay * 2.5)) (gapSpawnTimer t))
      t) s.

(** What remains of a tick after the movement rules: bounds, then the
    difficulty ramp (moving and despawning entities is not modelled). *)
Definition finishTick (delta : Q) (s : Scene) : Scene :=
  increaseDifficulty (delta / 1000) (verticalBounds s).

(** The landing and jump rules of a tick: the scene as it reaches the
    statement that tests the jump buffer. *)
Definition jumpPhase (delta : Q) (isJumpKeyDown : bool) (s : Scene) : Scene :=
  let touchingGround := touching_down (player s) in
  let s := landingLogic touchingGround delta s in
  jumpLogic touchingGround isJumpKeyDown s.

(** The movement rules of a tick, up to and including the jump-down
    statement. *)
Definition movement (delta : Q) (isJumpKeyDown isDownKeyDown : bool)
  (s : Scene) : Scene :=
  let touchingGround := touching_down (player s) in
  let s := jumpPhase delta isJumpKeyDown s in
  bufferAndJumpDown touchingGround delta isDownKeyDown s.

Definition update (time delta : Q) (isJumpKeyDown isDownKeyDown : bool)
  (s : Scene) : Scene :=
  if gameOver s then s
  else finishTick delta (movement delta isJumpKeyDown isDownKeyDown s).

(** The world's scroll speed of a tick ([currentScrollSpeed]). *)
Definition currentScrollSpeed (s : Scene) : Q :=
  if powerUpActive (powerUp s)
  then scrollSpeed (difficulty s) * powerUpSpeedBoost
  else scrollSpeed (difficulty s).

(** *** Run lifecycle *)

(** [restartGame]; [fadeRunning] is [cameras.main.fadeEffect.isRunning].
    [scene.restart()] runs [create] again on the same scene object: the
    constructor does not run a second time. *)
Definition restartGame (fadeRunning : bool) (s : Scene) : Scene :=
  if negb (gameOver s) || fadeRunning then s else
  let s := cleanupTimers s in
  let s := set_data (Some (playerScale s)) s in
  create s.

(** [handleJumpInput]: the pointer-down handler. *)
Definition handleJumpInput (fadeRunning : bool) (s : Scene) : Scene :=
  if gameOver s then restartGame fadeRunning s else
  let touching := touching_down (player s) in
  if touching && Qltb 0 (jumpBufferCounter (jump s)) then
    let s := setVelocityY (-575) s in
    let s := upd_jump (set_coyoteTimeCounter 0) s in
    let s := upd_jump (set_jumpBufferCounter 0) s in
    let s := emit JumpDust s in
    let s := upd_jump (set_hasDoubleJumped false) s in
    emit StretchTween s
  else if touching || Qltb 0 (coyoteTimeCounter (jump s)) then
    groundJump s
  else if negb touching && negb (hasDoubleJumped (jump s)) then
    doubleJump s
  else if negb touching && negb (gameOver s) then
    upd_jump (set_jumpBufferCounter jumpBufferDuration) s
  else s.

(** *** Power-ups *)

(** [triggerPowerUp]; [pick] is the value drawn by [Phaser.Math.RND.pick]. *)
Definition triggerPowerUp (pick : PowerUpType) (s : Scene) : Scene :=
  if powerUpActive (powerUp s) then s else
  let s := set_powerUp {| powerUpActive := true;
                          activePowerUpType := Some pick |} s in
  let s := upd_scoring (set_coinsCollectedForPowerUp 0) s in
  let s := upd_timers (set_powerUpTimer
             (Some {| delay := powerUpDuration; loop := false |})) s in
  match pick with
  | speed => upd_timers (set_powerUpFlashEvent
               (Some {| delay := 100; loop := true |})) s
  | shield => s
  end.

(** [endPowerUp]: the callback of the duration timer. *)
Definition endPowerUp (s : Scene) : Scene :=
  let s := set_powerUp noPowerUp s in
  let s := upd_timers (set_powerUpFlashEvent None) s in
  upd_timers (set_powerUpTimer None) s.

(** *** Combo and scoring *)

Definition comboTimeWindow : Q := 1500.
Definition baseScore : Z := 10.

(** The multiplier chosen in the "continue combo" branch. *)
Definition comboMultiplier (c : Z) : Z :=
  (if 8 <=? c then 4 else if 5 <=? c then 3 else if 3 <=? c then 2 else 1)%Z.

(** The callback of the combo timer. *)
Definition comboTimerCallback (s : Scene) : Scene :=
  let s := upd_scoring (set_comboCount 0) s in
  upd_scoring (set_scoreMultiplier 1) s.

(** "COMBO SYSTEM": continue or reset the combo. *)
Definition comboSystem (now : Q) (s : Scene) : Scene :=
  if Qltb (now - lastCoinCollectTime (scoring s)) comboTimeWindow then
    let s := upd_scoring (fun c => set_comboCount (comboCount c + 1)%Z c) s in
    let s := upd_timers (set_comboTimer None) s in
    upd_scoring
      (fun c => set_scoreMultiplier (comboMultiplier (comboCount c)) c) s
  else
    let s := upd_scoring (set_comboCount 1) s in
    upd_scoring (set_scoreMultiplier 1) s.

(** The new combo timer, the time of this pickup, the awarded score. *)
Definition awardScore (now : Q) (s : Scene) : Scene :=
  let s := upd_timers (set_comboTimer
             (Some {| delay := comboTimeWindow; loop := false |})) s in
  let s := upd_scoring (set_lastCoinCollectTime now) s in
  let scoreValue := (baseScore * scoreMultiplier (scoring s))%Z in
  upd_scoring (fun c => set_score (score c + scoreValue)%Z c) s.

(** The pickup counter and the power-up trigger. *)
Definition countTowardsPowerUp (pick : PowerUpType) (s : Scene) : Scene :=
  let s := upd_scoring
             (fun c => set_coinsCollectedForPowerUp
                         (coinsCollectedForPowerUp c + 1)%Z c) s in
  if negb (powerUpActive (powerUp s))
     && (20 <=? coinsCollectedForPowerUp (scoring s))%Z
  then upd_scoring (set_coinsCollectedForPowerUp 0) (triggerPowerUp pick s)
  else s.

(** [collectCoin(player, coin)]; [now] is [this.time.now]. *)
Definition collectCoin (now : Q) (pick : PowerUpType) (p : Player) (coin : Coin)
  (s : Scene) : Scene :=
  if negb (coin_active coin) then s else
  let s := emit CoinBurst s in
  let s := comboSystem now s in
  let s := awardScore now s in
  countTowardsPowerUp pick s.

(** *** Collisions *)

(** [activePowerUpType === 'shield'] *)
Definition is_shield (t : option PowerUpType) : bool :=
  match t with Some shield => true | _ => false end.

(** [hitEnemy(player, enemy)] *)
Definition hitEnemy (p : Player) (enemy : Enemy) (s : Scene) : Scene :=
  if gameOver s then s else
  if is_shield (activePowerUpType (powerUp s)) && powerUpActive (powerUp s)
  then
    let s := set_powerUp noPowerUp s in
    upd_timers (set_powerUpTimer None) s
  else endGame s.

(** The process callback given to both enemy colliders. *)
Definition processCallback (s : Scene) : bool :=
  negb (powerUpActive (powerUp s)) && negb (gameOver s).

(** A contact reported by one of the colliders registered in [create] for
    [this.enemies] and [this.flyingEnemies]: Phaser calls the collide
    callback only if the process callback returns true. *)
Definition enemyCollider (p : Player) (enemy : Enemy) (s : Scene) : Scene :=
  if processCallback s then hitEnemy p enemy s else s.

(** [playerFellInPit(player, pit)] *)
Definition playerFellInPit (p : Player) (pit : Pit) (s : Scene) : Scene :=
  if gameOver s then s else
  if touching_down p && Qle_bool (pit_body_top pit + 5) (body_bottom p)
  then endGame s else s.






(** ** Runs: the scene driven by its environment *)

(** What the engine can do to the scene between and during frames. *)
Inductive Event :=
| Physics (p : Player)                        (* a physics step moved the body *)
| Update (time delta : Q) (jumpKey downKey : bool)
| PointerDown (fadeRunning : bool)
| RestartKey (fadeRunning : bool)             (* 'keydown-SPACE' after game over *)
| CoinOverlap (now : Q) (pick : PowerUpType) (coin : Coin)
| EnemyContact (enemy : Enemy)
| PitOverlap (pit : Pit)
| ComboTimerFires
| PowerUpTimerFires.

Definition step (e : Event) (s : Scene) : Scene :=
  match e with
  | Physics p => set_player p s
  | Update time delta j d => update time delta j d s
  | PointerDown f => handleJumpInput f s
  | RestartKey f => restartGame f s
  | CoinOverlap now pick coin => collectCoin now pick (player s) coin s
  | EnemyContact enemy => enemyCollider (player s) enemy s
  | PitOverlap pit => playerFellInPit (player s) pit s
  | ComboTimerFires =>
      match comboTimer (timers s) with
      | Some _ => comboTimerCallback s
      | None => s
      end
  | PowerUpTimerFires =>
      match powerUpTimer (timers s) with
      | Some _ => endPowerUp s
      | None => s
      end
  end.

(** The states after each event of a trace. *)
Fixpoint run (evs : list Event) (s : Scene) : list Scene :=
  match evs with
  | [] => []
  | e :: rest => step e s :: run rest (step e s)
  end.

(** Does this event start a new run from this state? *)
Definition restarts (e : Event) (s : Scene) : bool :=
  match e with
  | PointerDown f | RestartKey f => gameOver s && negb f
  | _ => false
  end.

(** A trace that stays inside one run. *)
Fixpoint single_run (evs : list Event) (s : Scene) : Prop :=
  match evs with
  | [] => True
  | e :: rest => restarts e s = false /\ single_run rest (step e s)
  end.

(** Frame deltas are elapsed times. *)
Definition delta_nonneg (e : Event) : Prop :=
  match e with
  | Update _ delta _ _ => 0 <= delta
  | _ => True
  end.

(** The difficulty ramp along a list of successive states. *)
Fixpoint ramp_ok (prev : Scene) (l : list Scene) : Prop :=
  match l with
  | [] => True
  | s :: rest =>
      scrollSpeed (difficulty prev) <= scrollSpeed (difficulty s) /\
      scrollSpeed (difficulty s) <= maxScrollSpeed /\
      spawnDelay (difficulty s) <= spawnDelay (difficulty prev) /\
      minSpawnDelay <= spawnDelay (difficulty s) /\
      ramp_ok s rest
  end.

(** *** Frames: a physics step followed by the tick *)

Record Frame := {
  f_body : Player;
  f_time : Q;
  f_delta : Q;
  f_jump : bool;
  f_down : bool
}.

Definition frame (f : Frame) (s : Scene) : Scene :=
  update (f_time f) (f_delta f) (f_jump f) (f_down f)
         (set_player (f_body f) s).

Definition frames (fs : list Frame) (s : Scene) : Scene :=
  fold_left (fun st f => frame f st) fs s.

Definition sum_delta (fs : list Frame) : Q :=
  fold_right (fun f acc => f_delta f + acc) 0 fs.

(** The body is inside the vertical bounds that [update] checks, for a
    canvas of height [h]. *)
Definition in_world (h : Q) (p : Player) : Prop :=
  - player_height p <= player_y p /\ player_y p <= h + player_height p.

(** An elapsed-time delta and a body inside the world. *)
Definition sane_frame (h : Q) (f : Frame) : Prop :=
  0 <= f_delta f /\ in_world h (f_body f).

(** An airborne frame in which jump is not pressed. *)
Definition coasting (f : Frame) : Prop :=
  touching_down (f_body f) = false /\ f_jump f = false.

(** Airborne with the double jump spent and the coyote window closed. *)
Definition spent_airborne (s : Scene) : Prop :=
  gameOver s = false /\ hasDoubleJumped (jump s) = true /\
  coyoteTimeCounter (jump s) <= 0.

(** ** Spawn cadences as predicates *)

(** The coin and hazard timers follow the base spawn delay. *)
Definition coin_enemy_cadence (s : Scene) : Prop :=
  (forall t, coinSpawnTimer (timers s) = Some t ->
             delay t = spawnDelay (difficulty s) * 1.1) /\
  (forall t, enemySpawnTimer (timers s) = Some t ->
             delay t = spawnDelay (difficulty s)).

(** The pit cadence the specification gives. *)
Definition pit_cadence_2_0 (s : Scene) : Prop :=
  forall t, gapSpawnTimer (timers s) = Some t ->
            delay t == Qmax (spawnDelay (difficulty s) * 2.0)
                            (minSpawnDelay * 2.5).

(** The pit cadence [increaseDifficulty] sets. *)
Definition pit_cadence_1_8 (s : Scene) : Prop :=
  forall t, gapSpawnTimer (timers s) = Some t ->
            delay t == Qmax (spawnDelay (difficulty s) * 1.8)
                            (minSpawnDelay * 2.5).

(** ** Sample scenes, bodies and traces *)

(** A run used to instantiate the statements: a 600 pixel high canvas, a
    48 pixel high player frame. *)
Definition demoScene : Scene := create (constructed 600 48).

Definition demoTrace : list Event :=
  [ Update 16 16 false false;
    Physics {| player_y := 400; player_height := 48; velocityY := 0;
               touching_down := true; body_bottom := 540 |};
    Update 32 16 true false;
    CoinOverlap 40 shield {| coin_active := true |};
    Update 48 16 false false ].

Definition nineteenCoins : Scene :=
  upd_scoring (set_coinsCollectedForPowerUp 19) demoScene.


Definition speedScene : Scene := triggerPowerUp speed demoScene.
Definition shieldScene : Scene := triggerPowerUp shield demoScene.

(** A run with three quick pickups that ends on a ground hazard. *)
Definition comboRun : list Event :=
  [ CoinOverlap 5000 shield {| coin_active := true |};
    CoinOverlap 5200 shield {| coin_active := true |};
    CoinOverlap 5400 shield {| coin_active := true |};
    EnemyContact {| enemy_flying := false |} ].

Definition comboRunEnd : Scene := last (run comboRun demoScene) demoScene.

(** Pickups at 0, 200, 400 and 2500 ms. *)
Definition fourPickups : list Event :=
  map (fun now => CoinOverlap now speed {| coin_active := true |})
      [0; 200; 400; 2500].

(** Twenty-one pickups, one every two seconds. *)
Definition twentyOnePickups : list Event :=
  map (fun k => CoinOverlap (inject_Z (2000 * Z.of_nat k)) shield
                            {| coin_active := true |})
      (seq 1 21).

Definition airScene : Scene :=
  set_player {| player_y := 300; player_height := 48; velocityY := 0;
                touching_down := false; body_bottom := 324 |} demoScene.

Definition airBody (y : Q) : Player :=
  {| player_y := y; player_height := 48; velocityY := 0;
     touching_down := false; body_bottom := y + 24 |}.

Definition groundBody : Player :=
  {| player_y := 516; player_height := 48; velocityY := 0;
     touching_down := true; body_bottom := 540 |}.

(** A character that has jumped from the ground and spent its double
    jump. *)
Definition spentScene : Scene :=
  frames [ {| f_body := groundBody; f_time := 16; f_delta := 16;
              f_jump := true; f_down := false |};
           {| f_body := airBody 400; f_time := 216; f_delta := 200;
              f_jump := true; f_down := false |} ] demoScene.

Definition coastFrame (time delta : Q) : Frame :=
  {| f_body := airBody 450; f_time := time; f_delta := delta;
     f_jump := false; f_down := false |}.

Definition pressFrame (time delta : Q) : Frame :=
  {| f_body := airBody 420; f_time := time; f_delta := delta;
     f_jump := true; f_down := false |}.

Definition landFrame (time delta : Q) : Frame :=
  {| f_body := groundBody; f_time := time; f_delta := delta;
     f_jump := false; f_down := false |}.

(** ** Invariants of reachable scenes *)

(** The three power-up fields agree: a power-up is active exactly when a
    type is set and the duration timer is pending; only the speed surge
    has a flash event. *)
Definition powerUp_consistent (s : Scene) : Prop :=
  match powerUpActive (powerUp s) with
  | true => activePowerUpType (powerUp s) <> None /\
            powerUpTimer (timers s) <> None /\
            (powerUpFlashEvent (timers s) <> None ->
             activePowerUpType (powerUp s) = Some speed)
  | false => activePowerUpType (powerUp s) = None /\
             powerUpTimer (timers s) = None /\
             powerUpFlashEvent (timers s) = None
  end.

(** The ranges of the scoring fields. *)
Definition scoring_ok (s : Scene) : Prop :=
  (0 <= score (scoring s) /\ (10 | score (scoring s)) /\
   1 <= scoreMultiplier (scoring s) <= 4 /\
   0 <= comboCount (scoring s) /\
   0 <= coinsCollectedForPowerUp (scoring s))%Z.

(** The grace counters stay within their durations and the buffer is only
    armed with the double jump spent. *)
Definition jump_ok (s : Scene) : Prop :=
  jumpBufferCounter (jump s) <= jumpBufferDuration /\
  coyoteTimeCounter (jump s) <= coyoteTimeDuration /\
  (0 < jumpBufferCounter (jump s) -> hasDoubleJumped (jump s) = true).

(** Events that a finished run ignores. *)
Definition quiet (e : Event) : bool :=
  match e with
  | Update _ _ _ _ | EnemyContact _ | PitOverlap _
  | ComboTimerFires | PowerUpTimerFires => true
  | _ => false
  end.

(** The number of pickups of active coins in a trace. *)
Definition pickups (evs : list Event) : Z :=
  Z.of_nat (length (filter (fun e => match e with
                                     | CoinOverlap _ _ coin => coin_active coin
                                     | _ => false
                                     end) evs)).

(** An airborne frame, whatever the keys. *)
Definition airborne (f : Frame) : Prop := touching_down (f_body f) = false.

(** The scene after a whole trace. *)
Definition after (evs : list Event) (s : Scene) : Scene :=
  fold_left (fun st e => step e st) evs s.

(** ** Pooled entities: coins, hazards and pits *)

(** The part of an arcade body the scene itself writes. *)
Record ArcadeBody := {
  enable : bool;
  body_velocity_x : Q;
  body_velocity_y : Q
}.

(** A member of a physics group.  [bobTween] and [hoverTween] say whether
    the data entry of that name holds a tween. *)
Record Child := {
  child_active : bool;
  child_visible : bool;
  child_x : Q;
  child_y : Q;
  displayWidth : Q;
  originX : Q;
  child_body : option ArcadeBody;
  bobTween : bool;
  hoverTween : bool
}.

(** [child.getBounds().right] of an unrotated game object: the larger of
    its two vertical edges. *)
Definition bounds_right (c : Child) : Q :=
  let left := child_x c - displayWidth c * originX c in
  Qmax left (left + displayWidth c).

(** [child.getBounds().x]: the smaller of the two. *)
Definition bounds_left (c : Child) : Q :=
  let left := child_x c - displayWidth c * originX c in
  Qmin left (left + displayWidth c).

Definition set_child_x (v : Q) (c : Child) : Child :=
  {| child_active := child_active c; child_visible := child_visible c;
     child_x := v; child_y := child_y c; displayWidth := displayWidth c;
     originX := originX c; child_body := child_body c;
     bobTween := bobTween c; hoverTween := hoverTween c |}.

(** [moveGroupChildren(group, displacement)] *)
Definition moveGroupChildren (group : list Child) (displacement : Q)
  : list Child :=
  map (fun child =>
         if child_active child
         then set_child_x (child_x child + displacement) child
         else child) group.

(** The body of the despawn loop: both tweens stopped and cleared, the
    body disabled and at rest, then [group.killAndHide(child)]. *)
Definition despawn (c : Child) : Child :=
  {| child_active := false; child_visible := false;
     child_x := child_x c; child_y := child_y c;
     displayWidth := displayWidth c; originX := originX c;
     child_body := match child_body c with
                   | Some _ => Some {| enable := false;
                                       body_velocity_x := 0;
                                       body_velocity_y := 0 |}
                   | None => None
                   end;
     bobTween := false; hoverTween := false |}.

(** [despawnOffscreenObjects(group)] *)
Definition despawnOffscreenObjects (group : list Child) : list Child :=
  map (fun child =>
         if child_active child && Qltb (bounds_right child) 0
         then despawn child else child) group.

(** The four groups of the scene. *)
Record World := {
  coins : list Child;
  enemies : list Child;
  flyingEnemies : list Child;
  gapGroup : list Child
}.

(** What [update(time, delta)] does to the groups: nothing after game
    over; otherwise every group is moved by the displacement of the tick,
    computed from the scene as the tick finds it, and swept. *)
Definition updateWorld (delta : Q) (s : Scene) (w : World) : World :=
  if gameOver s then w else
  let deltaSeconds := delta / 1000 in
  let displacement := - currentScrollSpeed s * deltaSeconds in
  let sweep g := despawnOffscreenObjects (moveGroupChildren g displacement) in
  {| coins := sweep (coins w); enemies := sweep (enemies w);
     flyingEnemies := sweep (flyingEnemies w);
     gapGroup := sweep (gapGroup w) |}.

(** [group.get(x, y, key)] followed by statements [f] on the object it
    returns: Phaser hands out the first inactive member, and creates and
    adds a member when there is none. *)
Fixpoint reuseInactive (f : Child -> Child) (group : list Child)
  : option (list Child) :=
  match group with
  | [] => None
  | child :: rest =>
      if child_active child
      then match reuseInactive f rest with
           | Some rest' => Some (child :: rest')
           | None => None
           end
      else Some (f child :: rest)
  end.

Definition getAnd (f : Child -> Child) (fresh : Child) (group : list Child)
  : list Child :=
  match reuseInactive f group with
  | Some group' => group'
  | None => group ++ [f fresh]
  end.

(** A sprite as the group creates it, before the spawn code places it. *)
Definition freshSprite (x y textureWidth : Q) : Child :=
  {| child_active := true; child_visible := true; child_x := x; child_y := y;
     displayWidth := textureWidth; originX := 0.5;
     child_body := Some {| enable := true; body_velocity_x := 0;
                           body_velocity_y := 0 |};
     bobTween := false; hoverTween := false |}.

(** The statements of [spawnPit] on the pit it got. *)
Definition placePit (spawnX spawnY pitWidth : Q) (pit : Child) : Child :=
  {| child_active := true; child_visible := true;
     child_x := spawnX; child_y := spawnY;
     displayWidth := pitWidth; originX := 0.5;
     child_body := match child_body pit with
                   | Some b => Some {| enable := true;
                                       body_velocity_x := body_velocity_x b;
                                       body_velocity_y := body_velocity_y b |}
                   | None => Some {| enable := true; body_velocity_x := 0;
                                     body_velocity_y := 0 |}
                   end;
     bobTween := bobTween pit; hoverTween := hoverTween pit |}.

(** [spawnPit]; [width] is [this.scale.width], [pitWidth] the value drawn
    by [Phaser.Math.Between(90, 150)]; the lava texture is 128 wide. *)
Definition spawnPit (width pitWidth : Q) (s : Scene) (group : list Child)
  : list Child :=
  if gameOver s then group else
  let spawnY := scale_height s * 0.9 + 10 in
  let spawnX := width + pitWidth / 2 + 20 in
  getAnd (placePit spawnX spawnY pitWidth) (freshSprite spawnX spawnY 128)
         group.

Definition count_active (group : list Child) : nat :=
  length (filter child_active group).

(** ** Texture processing *)

(** The channels of a 0xRRGGBB colour value. *)
Definition channel_r (colorValue : Z) : Z := Z.land (Z.shiftr colorValue 16) 255.
Definition channel_g (colorValue : Z) : Z := Z.land (Z.shiftr colorValue 8) 255.
Definition channel_b (colorValue : Z) : Z := Z.land colorValue 255.

(** The test of the pixel loop, with its tolerance of 30 per channel. *)
Definition isBackground (r g b pr pg pb : Z) : bool :=
  ((Z.abs (pr - r) <? 30) && (Z.abs (pg - g) <? 30) && (Z.abs (pb - b) <? 30))%Z.

(** The pixel loop of [removeBackgroundColor] and
    [removeSpritesheetBackground] over the RGBA bytes of the image data:
    four bytes a step; bytes that do not fill a pixel are left alone. *)
Fixpoint clearBackground (r g b : Z) (data : list Z) : list Z :=
  match data with
  | pr :: pg :: pb :: pa :: rest =>
      pr :: pg :: pb :: (if isBackground r g b pr pg pb then 0%Z else pa)
         :: clearBackground r g b rest
  | _ => data
  end.

Definition removeBackgroundColor (colorValue : Z) (data : list Z) : list Z :=
  clearBackground (channel_r colorValue) (channel_g colorValue)
                  (channel_b colorValue) data.

(** ** Sizes and hitboxes *)

Inductive ObjectType :=
| playerType | coinType | enemyType | flyingEnemyType | particleType
| otherType.   (* a key the table of target sizes does not have *)

Record Size := { size_width : Q; size_height : Q }.

(** [this.targetSizes], set in [preload]. *)
Definition targetSizes (objectType : ObjectType) : option Size :=
  match objectType with
  | playerType => Some {| size_width := 24; size_height := 48 |}
  | coinType => Some {| size_width := 24; size_height := 24 |}
  | enemyType => Some {| size_width := 30; size_height := 40 |}
  | flyingEnemyType => Some {| size_width := 35; size_height := 35 |}
  | particleType => Some {| size_width := 10; size_height := 10 |}
  | otherType => None
  end.

(** The frame size and the scale of a game object. *)
Record GameObject := {
  go_width : Q;
  go_height : Q;
  scaleX : Q;
  scaleY : Q
}.

Definition setScale (sx sy : Q) (o : GameObject) : GameObject :=
  {| go_width := go_width o; go_height := go_height o;
     scaleX := sx; scaleY := sy |}.

Definition is_playerType (t : ObjectType) : bool :=
  match t with playerType => true | _ => false end.

(** [scaleToTargetSize(gameObject, objectType)].  A frame of width or
    height 0 would make the JavaScript quotient infinite; the statements
    below assume frames of non-zero size. *)
Definition scaleToTargetSize (gameObject : GameObject)
  (objectType : ObjectType) (s : Scene) : GameObject * Scene :=
  match targetSizes objectType with
  | None => (gameObject, s)
  | Some target =>
      match (if is_playerType objectType then data s else None) with
      | Some scaleData =>
          (setScale (playerScaleX scaleData) (playerScaleY scaleData)
                    gameObject,
           set_playerScale scaleData s)
      | None =>
          if negb (Qeq_bool (go_width gameObject) (size_width target))
             || negb (Qeq_bool (go_height gameObject) (size_height target))
          then (setScale (size_width target / go_width gameObject)
                         (size_height target / go_height gameObject)
                         gameObject, s)
          else (gameObject, s)
      end
  end.

(** The size and offset given to an arcade body. *)
Record Hitbox := {
  hitboxWidth : Q;
  hitboxHeight : Q;
  offsetX : Q;
  offsetY : Q
}.

(** [setupPlayerHitbox]; [w] and [h] are [this.player.width] and
    [this.player.height]. *)
Definition setupPlayerHitbox (w h : Q) (s : Scene) : Hitbox :=
  let ow := playerOriginalWidth (playerScale s) in
  let oh := playerOriginalHeight (playerScale s) in
  if Qltb 0 ow && Qltb 0 oh then
    {| hitboxWidth := ow * 0.6; hitboxHeight := oh * 0.85;
       offsetX := (ow - ow * 0.6) / 2; offsetY := (oh - oh * 0.85) / 2 |}
  else
    {| hitboxWidth := w * 0.6; hitboxHeight := h * 0.85;
       offsetX := (w - w * 0.6) / 2; offsetY := (h - h * 0.85) / 2 |}.

(** ** Sample entities *)

Definition pitAt (x : Q) (isActive : bool) : Child :=
  {| child_active := isActive; child_visible := isActive; child_x := x;
     child_y := 550; displayWidth := 120; originX := 0.5;
     child_body := Some {| enable := isActive; body_velocity_x := 0;
                           body_velocity_y := 0 |};
     bobTween := false; hoverTween := false |}.

(** One entity before and after a tick: it has not moved right, and by no
    more than [limit] to the left; a pooled entity is as it was; an entity
    still active afterwards was active before and has not left the screen
    to the left. *)
Definition scrolled (limit : Q) (c c' : Child) : Prop :=
  child_x c' <= child_x c /\
  child_x c - child_x c' <= limit /\
  (child_active c = false -> c' = c) /\
  (child_active c' = true ->
   child_active c = true /\ 0 <= bounds_right c').

(** The ranges of the difficulty values. *)
Definition difficulty_ok (s : Scene) : Prop :=
  baseScrollSpeed <= scrollSpeed (difficulty s) /\
  scrollSpeed (difficulty s) <= maxScrollSpeed /\
  minSpawnDelay <= spawnDelay (difficulty s) /\
  spawnDelay (difficulty s) <= baseSpawnDelay.

(** Pickups of active coins at the given times, with the given draws of
    the power-up type. *)
Definition pickupEvents (l : list (Q * PowerUpType)) : list Event :=
  map (fun np => CoinOverlap (fst np) (snd np) {| coin_active := true |}) l.

(** * Properties *)

Ltac split_ifs :=
  repeat match goal with
         | |- context [if ?c then _ else _] => destruct c eqn:?
         | |- context [match ?c with Some _ => _ | None => _ end] =>
             destruct c eqn:?
         end.

(** ** Numeric tests on rationals *)

Lemma Qltb_lt (x y : Q) : Qltb x y = true <-> x < y.
Proof.
  unfold Qltb. rewrite negb_true_iff. split.
  - intros H. apply Qnot_le_lt. intros Hle.
    apply Qle_bool_iff in Hle. congruence.
  - intros H. destruct (Qle_bool y x) eqn:E; [|reflexivity].
    apply Qle_bool_iff in E. exfalso. apply (Qlt_not_le _ _ H E).
Qed.

Lemma Qltb_ge (x y : Q) : Qltb x y = false <-> y <= x.
Proof.
  unfold Qltb. rewrite negb_false_iff. apply Qle_bool_iff.
Qed.

Lemma Qdiv1000_nonneg (d : Q) : 0 <= d -> 0 <= d / 1000.
Proof.
  intros Hd. unfold Qdiv.
  apply Qmult_le_0_compat; [assumption | vm_compute; discriminate].
Qed.

(** ** The difficulty ramp *)

Lemma difficulty_endGame (s : Scene) : difficulty (endGame s) = difficulty s.
Proof. unfold endGame. split_ifs; reflexivity. Qed.

Lemma difficulty_movement delta j d (s : Scene) :
  difficulty (movement delta j d s) = difficulty s.
Proof.
  unfold movement, jumpPhase, bufferAndJumpDown, jumpLogic, landingLogic.
  split_ifs; reflexivity.
Qed.

Lemma difficulty_verticalBounds (s : Scene) :
  difficulty (verticalBounds s) = difficulty s.
Proof.
  unfold verticalBounds. split_ifs; rewrite ?difficulty_endGame; reflexivity.
Qed.

Lemma scrollSpeed_increaseDifficulty ds (s : Scene) :
  scrollSpeed (difficulty (increaseDifficulty ds s)) =
  Qmin (scrollSpeed (difficulty s) + speedIncreaseFactor * ds) maxScrollSpeed.
Proof. reflexivity. Qed.

Lemma spawnDelay_increaseDifficulty ds (s : Scene) :
  spawnDelay (difficulty (increaseDifficulty ds s)) =
  Qmax (spawnDelay (difficulty s) - spawnDecreaseFactor * ds) minSpawnDelay.
Proof. reflexivity. Qed.

(** One call of [increaseDifficulty] with a non-negative time step. *)
Lemma increaseDifficulty_ramp ds (s : Scene) :
  0 <= ds ->
  scrollSpeed (difficulty s) <= maxScrollSpeed ->
  minSpawnDelay <= spawnDelay (difficulty s) ->
  ramp_ok s [increaseDifficulty ds s].
Proof.
  intros Hds Hs Hd. cbn [ramp_ok].
  rewrite scrollSpeed_increaseDifficulty, spawnDelay_increaseDifficulty.
  unfold speedIncreaseFactor, spawnDecreaseFactor, maxScrollSpeed,
    minSpawnDelay in *.
  repeat split.
  - apply Q.min_glb; lra.
  - apply Q.le_min_r.
  - apply Q.max_lub; lra.
  - apply Q.le_max_r.
Qed.

Lemma step_difficulty (e : Event) (s : Scene) :
  restarts e s = false ->
  difficulty (step e s) = difficulty s \/
  exists time delta j d, e = Update time delta j d /\ gameOver s = false /\
    difficulty (step e s) =
    difficulty (increaseDifficulty (delta / 1000) s).
Proof.
  intros Hr. destruct e; simpl in *.
  - left; reflexivity.
  - unfold update. destruct (gameOver s) eqn:Hg; [left; reflexivity|].
    right. exists time, delta, jumpKey, downKey. repeat split.
    unfold finishTick, increaseDifficulty.
    rewrite difficulty_verticalBounds, difficulty_movement. reflexivity.
  - left. unfold handleJumpInput, restartGame.
    destruct (gameOver s); simpl in *.
    + destruct fadeRunning; [reflexivity | discriminate].
    + unfold groundJump, doubleJump. split_ifs; reflexivity.
  - left. unfold restartGame. destruct (gameOver s); simpl in *.
    + destruct fadeRunning; [reflexivity | discriminate].
    + reflexivity.
  - left. unfold collectCoin, countTowardsPowerUp, awardScore, comboSystem,
      triggerPowerUp.
    split_ifs; reflexivity.
  - left. unfold enemyCollider, hitEnemy. 
    split_ifs; rewrite ?difficulty_endGame; reflexivity.
  - left. unfold playerFellInPit.
    split_ifs; rewrite ?difficulty_endGame; reflexivity.
  - left. split_ifs; reflexivity.
  - left. split_ifs; reflexivity.
Qed.

Lemma ramp_run (evs : list Event) : forall s : Scene,
  scrollSpeed (difficulty s) <= maxScrollSpeed ->
  minSpawnDelay <= spawnDelay (difficulty s) ->
  single_run evs s ->
  Forall delta_nonneg evs ->
  ramp_ok s (run evs s).
Proof.
  induction evs as [|e rest IH]; intros s Hs Hd Hrun Hnn; simpl; [exact I|].
  destruct Hrun as [Hr Hrun]. inversion Hnn as [|? ? He Hrest]; subst.
  assert (Hstep : scrollSpeed (difficulty s) <= scrollSpeed (difficulty (step e s))
                  /\ scrollSpeed (difficulty (step e s)) <= maxScrollSpeed
                  /\ spawnDelay (difficulty (step e s)) <= spawnDelay (difficulty s)
                  /\ minSpawnDelay <= spawnDelay (difficulty (step e s))).
  { destruct (step_difficulty e s Hr) as [Heq | (time & delta & j & d & -> & _ & Heq)];
      rewrite Heq.
    - repeat split; try assumption; apply Qle_refl.
    - simpl in He.
      pose proof (increaseDifficulty_ramp (delta / 1000) s
                    (Qdiv1000_nonneg delta He) Hs Hd) as H.
      cbn [ramp_ok] in H. tauto. }
  destruct Hstep as (H1 & H2 & H3 & H4).
  repeat split; try assumption.
  apply IH; assumption.
Qed.

Lemma difficulty_create (s : Scene) :
  difficulty (create s) =
  {| scrollSpeed := baseScrollSpeed; spawnDelay := baseSpawnDelay |}.
Proof. unfold create. split_ifs; reflexivity. Qed.

(** C3. Within a single run (any trace of frames, inputs, collisions and
    timer firings that starts at [create] and contains no restart), with
    frame deltas that are elapsed times, [scrollSpeed] never decreases from
    one state to the next and never exceeds [maxScrollSpeed] = 750, and
    [spawnDelay] never increases and never drops below [minSpawnDelay] =
    400. *)
Theorem difficulty_ramp_monotone_bounded (s0 : Scene) (evs : list Event) :
  single_run evs (create s0) ->
  Forall delta_nonneg evs ->
  maxScrollSpeed == 750 /\ minSpawnDelay == 400 /\
  ramp_ok (create s0) (run evs (create s0)).
Proof.
  intros Hrun Hnn. split; [reflexivity|]. split; [reflexivity|].
  apply ramp_run; try assumption; rewrite difficulty_create; simpl.
  - vm_compute. discriminate.
  - vm_compute. discriminate.
Qed.

Lemma difficulty_ramp_monotone_bounded_witness :
  single_run demoTrace (create (constructed 600 48)) /\
  Forall delta_nonneg demoTrace /\
  (maxScrollSpeed == 750 /\ minSpawnDelay == 400 /\
   ramp_ok (create (constructed 600 48))
           (run demoTrace (create (constructed 600 48)))).
Proof.
  assert (H1 : single_run demoTrace (create (constructed 600 48))).
  { simpl. repeat split. }
  assert (H2 : Forall delta_nonneg demoTrace).
  { unfold demoTrace. repeat constructor; simpl; discriminate. }
  split; [exact H1|]. split; [exact H2|].
  exact (difficulty_ramp_monotone_bounded (constructed 600 48) demoTrace H1 H2).
Defined.

(** ** Combo and scoring *)

Lemma comboMultiplier_tiers (c : Z) :
  ((c < 3 -> comboMultiplier c = 1) /\
   (3 <= c <= 4 -> comboMultiplier c = 2) /\
   (5 <= c <= 7 -> comboMultiplier c = 3) /\
   (8 <= c -> comboMultiplier c = 4))%Z.
Proof.
  unfold comboMultiplier.
  destruct (8 <=? c)%Z eqn:E8; destruct (5 <=? c)%Z eqn:E5;
    destruct (3 <=? c)%Z eqn:E3;
    rewrite ?Z.leb_le, ?Z.leb_gt in *; repeat split; intros; lia.
Qed.

Lemma comboSystem_fields now (s : Scene) :
  let c' := if Qltb (now - lastCoinCollectTime (scoring s)) comboTimeWindow
            then (comboCount (scoring s) + 1)%Z else 1%Z in
  let s' := comboSystem now s in
  comboCount (scoring s') = c' /\
  scoreMultiplier (scoring s') = comboMultiplier c' /\
  score (scoring s') = score (scoring s) /\
  coinsCollectedForPowerUp (scoring s') = coinsCollectedForPowerUp (scoring s)
  /\ powerUp s' = powerUp s /\
  powerUpTimer (timers s') = powerUpTimer (timers s).
Proof.
  unfold comboSystem.
  destruct (Qltb (now - lastCoinCollectTime (scoring s)) comboTimeWindow);
    repeat split; reflexivity.
Qed.

Lemma countTowardsPowerUp_scoring pick (s : Scene) :
  let s' := countTowardsPowerUp pick s in
  comboCount (scoring s') = comboCount (scoring s) /\
  scoreMultiplier (scoring s') = scoreMultiplier (scoring s) /\
  score (scoring s') = score (scoring s) /\
  lastCoinCollectTime (scoring s') = lastCoinCollectTime (scoring s).
Proof.
  unfold countTowardsPowerUp, triggerPowerUp.
  destruct (powerUpActive (powerUp s)) eqn:Ha; cbn -[Z.add Z.leb];
    rewrite ?Ha; cbn -[Z.add Z.leb];
    destruct (20 <=? coinsCollectedForPowerUp (scoring s) + 1)%Z;
    try destruct pick; repeat split; reflexivity.
Qed.

(** The combo fields after a pickup, by the branch taken. *)
Lemma collectCoin_combo now pick p coin (s : Scene) :
  coin_active coin = true ->
  let c' := if Qltb (now - lastCoinCollectTime (scoring s)) comboTimeWindow
            then (comboCount (scoring s) + 1)%Z else 1%Z in
  let s' := collectCoin now pick p coin s in
  comboCount (scoring s') = c' /\
  scoreMultiplier (scoring s') = comboMultiplier c' /\
  score (scoring s') = (score (scoring s) + baseScore * comboMultiplier c')%Z /\
  lastCoinCollectTime (scoring s') = now.
Proof.
  intros Hc c'. unfold collectCoin. rewrite Hc. cbn [negb]. cbv zeta.
  destruct (countTowardsPowerUp_scoring pick
              (awardScore now (comboSystem now (emit CoinBurst s))))
    as (H1 & H2 & H3 & H4).
  rewrite H1, H2, H3, H4.
  destruct (comboSystem_fields now (emit CoinBurst s)) as (G1 & G2 & G3 & _).
  change (lastCoinCollectTime (scoring (emit CoinBurst s)))
    with (lastCoinCollectTime (scoring s)) in G1, G2.
  change (comboCount (scoring (emit CoinBurst s)))
    with (comboCount (scoring s)) in G1, G2.
  change (score (scoring (emit CoinBurst s))) with (score (scoring s)) in G3.
  fold c' in G1, G2.
  unfold awardScore. cbn -[comboSystem Z.add Z.mul baseScore].
  rewrite G1, G2, G3. repeat split; reflexivity.
Qed.

(** C4. On a pickup of an active coin: the combo count becomes 1 when the
    time since the previous pickup is at least 1500 ms and is incremented
    otherwise (so, for a count that was not 0, it is 1 afterwards exactly
    when the gap is at least 1500 ms); the multiplier after the pickup is 1
    for a count below 3, 2 for 3-4, 3 for 5-7, 4 from 8 on; the score grows
    by 10 times that multiplier. *)
Theorem collectCoin_combo_multiplier_award now pick p coin (s : Scene) :
  coin_active coin = true ->
  let gap := now - lastCoinCollectTime (scoring s) in
  let s' := collectCoin now pick p coin s in
  let c' := comboCount (scoring s') in
  let m' := scoreMultiplier (scoring s') in
  comboTimeWindow == 1500 /\
  (comboTimeWindow <= gap -> c' = 1%Z) /\
  (gap < comboTimeWindow -> c' = (comboCount (scoring s) + 1)%Z) /\
  (comboCount (scoring s) <> 0%Z -> (c' = 1%Z <-> comboTimeWindow <= gap)) /\
  ((c' < 3 -> m' = 1) /\ (3 <= c' <= 4 -> m' = 2) /\
   (5 <= c' <= 7 -> m' = 3) /\ (8 <= c' -> m' = 4))%Z /\
  score (scoring s') = (score (scoring s) + 10 * m')%Z.
Proof.
  intros Hc gap s' c' m'.
  destruct (collectCoin_combo now pick p coin s Hc) as (Hcc & Hm & Hs & _).
  fold s' in Hcc, Hm, Hs. fold gap in Hcc, Hm, Hs.
  subst c' m'. rewrite Hs, Hm, Hcc. clear Hcc Hm Hs.
  split; [reflexivity|].
  destruct (Qltb gap comboTimeWindow) eqn:E.
  - apply Qltb_lt in E.
    split; [intros H; exfalso; apply (Qlt_not_le _ _ E H)|].
    split; [reflexivity|].
    split.
    { intros Hnz. split; [lia|]. intros H.
      exfalso; apply (Qlt_not_le _ _ E H). }
    split; [apply comboMultiplier_tiers | reflexivity].
  - apply Qltb_ge in E.
    split; [reflexivity|].
    split; [intros H; exfalso; apply (Qlt_not_le _ _ H E)|].
    split; [tauto|].
    split; [apply comboMultiplier_tiers | reflexivity].
Qed.

Lemma collectCoin_combo_multiplier_award_witness :
  let s := demoScene in
  let coin := {| coin_active := true |} in
  let s' := collectCoin 2500 shield (player s) coin s in
  coin_active coin = true /\
  comboCount (scoring s') = 1%Z /\
  score (scoring s') = 10%Z.
Proof.
  intros s coin s'.
  pose proof (collectCoin_combo_multiplier_award 2500 shield (player s) coin s
                eq_refl) as H.
  split; [reflexivity|].
  destruct H as (_ & H1 & _ & _ & (Hm & _) & Hs).
  split.
  - apply H1. vm_compute. discriminate.
  - fold s' in Hs. rewrite Hs. reflexivity.
Defined.

(** The scores of four pickups at 0, 200, 400 and 2500 ms: 10, 20, 40 and,
    after the gap of 2100 ms, 50, with combo counts 1, 2, 3, 1. *)
Example four_pickups_scores :
  map (fun s => (comboCount (scoring s), scoreMultiplier (scoring s),
                 score (scoring s)))
      (run fourPickups demoScene) =
  [(1, 1, 10); (2, 1, 20); (3, 2, 40); (1, 1, 50)]%Z.
Proof. vm_compute. reflexivity. Qed.

(** ** The power-up trigger *)

Lemma countTowardsPowerUp_powerUp pick (s : Scene) :
  let n := (coinsCollectedForPowerUp (scoring s) + 1)%Z in
  let s' := countTowardsPowerUp pick s in
  if negb (powerUpActive (powerUp s)) && (20 <=? n)%Z
  then powerUp s' = {| powerUpActive := true; activePowerUpType := Some pick |}
       /\ coinsCollectedForPowerUp (scoring s') = 0%Z
       /\ powerUpTimer (timers s') =
          Some {| delay := powerUpDuration; loop := false |}
  else powerUp s' = powerUp s
       /\ coinsCollectedForPowerUp (scoring s') = n
       /\ powerUpTimer (timers s') = powerUpTimer (timers s).
Proof.
  unfold countTowardsPowerUp, triggerPowerUp.
  destruct (powerUpActive (powerUp s)) eqn:Ha; cbn -[Z.add Z.leb];
    rewrite ?Ha; cbn -[Z.add Z.leb];
    destruct (20 <=? coinsCollectedForPowerUp (scoring s) + 1)%Z;
    try destruct pick; repeat split; reflexivity.
Qed.

(** The power-up fields after a pickup, by the test of the trigger. *)
Lemma collectCoin_powerUp now pick p coin (s : Scene) :
  coin_active coin = true ->
  let n := (coinsCollectedForPowerUp (scoring s) + 1)%Z in
  let s' := collectCoin now pick p coin s in
  if negb (powerUpActive (powerUp s)) && (20 <=? n)%Z
  then powerUp s' = {| powerUpActive := true; activePowerUpType := Some pick |}
       /\ coinsCollectedForPowerUp (scoring s') = 0%Z
       /\ powerUpTimer (timers s') =
          Some {| delay := powerUpDuration; loop := false |}
  else powerUp s' = powerUp s
       /\ coinsCollectedForPowerUp (scoring s') = n
       /\ powerUpTimer (timers s') = powerUpTimer (timers s).
Proof.
  intros Hc n. unfold collectCoin. rewrite Hc. cbn [negb]. cbv zeta.
  pose proof (countTowardsPowerUp_powerUp pick
                (awardScore now (comboSystem now (emit CoinBurst s)))) as H.
  destruct (comboSystem_fields now (emit CoinBurst s))
    as (_ & _ & _ & G4 & G5 & G6).
  cbv zeta in H.
  change (powerUp (awardScore now (comboSystem now (emit CoinBurst s))))
    with (powerUp (comboSystem now (emit CoinBurst s))) in H.
  change (coinsCollectedForPowerUp
            (scoring (awardScore now (comboSystem now (emit CoinBurst s)))))
    with (coinsCollectedForPowerUp
            (scoring (comboSystem now (emit CoinBurst s)))) in H.
  change (powerUpTimer
            (timers (awardScore now (comboSystem now (emit CoinBurst s)))))
    with (powerUpTimer (timers (comboSystem now (emit CoinBurst s)))) in H.
  rewrite G4, G5, G6 in H. exact H.
Qed.

Lemma triggerPowerUp_while_active pick (s : Scene) :
  powerUpActive (powerUp s) = true -> triggerPowerUp pick s = s.
Proof. intros H. unfold triggerPowerUp. rewrite H. reflexivity. Qed.

(** C6. On a pickup of an active coin, with [n] the pickup counter after its
    increment: a power-up is triggered exactly when no power-up is active
    and [n] has reached 20, and exactly then the counter is reset to 0;
    while a power-up is active, reaching or exceeding 20 leaves the power-up
    state and its duration timer as they are and the counter at [n]; the
    scene has one power-up slot, and a trigger while it is occupied changes
    nothing. *)
Theorem powerUp_trigger_exactly_at_20 now pick p coin (s : Scene) :
  coin_active coin = true ->
  (0 <= coinsCollectedForPowerUp (scoring s))%Z ->
  let n := (coinsCollectedForPowerUp (scoring s) + 1)%Z in
  let s' := collectCoin now pick p coin s in
  (powerUpActive (powerUp s) = false /\ (20 <= n)%Z ->
     powerUp s' = {| powerUpActive := true; activePowerUpType := Some pick |}
     /\ powerUpTimer (timers s') =
        Some {| delay := powerUpDuration; loop := false |}) /\
  (~ (powerUpActive (powerUp s) = false /\ (20 <= n)%Z) ->
     powerUp s' = powerUp s
     /\ powerUpTimer (timers s') = powerUpTimer (timers s)) /\
  (coinsCollectedForPowerUp (scoring s') = 0%Z <->
     powerUpActive (powerUp s) = false /\ (20 <= n)%Z) /\
  (powerUpActive (powerUp s) = true ->
     powerUp s' = powerUp s /\ coinsCollectedForPowerUp (scoring s') = n) /\
  (powerUpActive (powerUp s) = true -> triggerPowerUp pick s = s).
Proof.
  intros Hc Hn n s'.
  pose proof (collectCoin_powerUp now pick p coin s Hc) as H.
  cbv zeta in H. fold n in H. fold s' in H.
  destruct (powerUpActive (powerUp s)) eqn:Ha;
    destruct (20 <=? n)%Z eqn:E; simpl in H;
    rewrite ?Z.leb_le, ?Z.leb_gt in E;
    destruct H as (Hp & Hk & Ht);
    (split; [intros [? ?]; try discriminate; try lia; split; assumption|]);
    (split; [intros Hneg; try (exfalso; apply Hneg; split; [reflexivity|lia]);
             split; assumption|]);
    (split; [rewrite Hk; split;
             [intros ?; try (split; [reflexivity|lia]); subst n; lia
             |intros [? ?]; try discriminate; try lia; reflexivity]|]);
    (split; [intros ?; try discriminate; split; assumption|]);
    intros ?; try discriminate; apply triggerPowerUp_while_active; assumption.
Qed.

Lemma powerUp_trigger_exactly_at_20_witness :
  let coin := {| coin_active := true |} in
  let s' := collectCoin 2500 shield (player nineteenCoins) coin nineteenCoins in
  coin_active coin = true /\
  (0 <= coinsCollectedForPowerUp (scoring nineteenCoins))%Z /\
  powerUp s' = {| powerUpActive := true; activePowerUpType := Some shield |} /\
  coinsCollectedForPowerUp (scoring s') = 0%Z.
Proof.
  intros coin s'.
  assert (H0 : (0 <= coinsCollectedForPowerUp (scoring nineteenCoins))%Z)
    by (vm_compute; discriminate).
  pose proof (powerUp_trigger_exactly_at_20 2500 shield (player nineteenCoins)
                coin nineteenCoins eq_refl H0) as (H1 & _ & H3 & _).
  split; [reflexivity|]. split; [exact H0|].
  assert (Hpre : powerUpActive (powerUp nineteenCoins) = false /\
                 (20 <= coinsCollectedForPowerUp (scoring nineteenCoins) + 1)%Z).
  { split; [reflexivity | vm_compute; discriminate]. }
  split.
  - exact (proj1 (H1 Hpre)).
  - exact (proj2 H3 Hpre).
Defined.

(** Twenty pickups trigger the power-up on the twentieth and the counter is
    back at 0; the twenty-first, with the power-up active, counts 1 and
    triggers nothing. *)
Example twenty_one_pickups :
  map (fun s => (powerUpActive (powerUp s),
                 coinsCollectedForPowerUp (scoring s)))
      (skipn 18 (run twentyOnePickups demoScene)) =
  [(false, 19); (true, 0); (true, 1)]%Z.
Proof. vm_compute. reflexivity. Qed.

(** ** Collisions and the run lifecycle *)

Lemma gameOver_endGame (s : Scene) : gameOver (endGame s) = true.
Proof.
  unfold endGame. destruct (gameOver s) eqn:E; [exact E|].
  split_ifs; reflexivity.
Qed.





(** While a power-up is active the process callback of the enemy colliders
    is false. *)
Lemma processCallback_powerUp (s : Scene) :
  powerUpActive (powerUp s) = true -> processCallback s = false.
Proof. intros H. unfold processCallback. rewrite H. reflexivity. Qed.

(** C10. While any power-up is active, speed or shield, the process
    callback of the enemy colliders is false, so a contact with a ground or
    flying hazard never reaches [hitEnemy]: any number of contacts leaves
    the whole scene, run flag and power-up state included, as it was. *)
Theorem hazards_suppressed_while_powerUp_active (s : Scene)
  (contacts : list Enemy) :
  powerUpActive (powerUp s) = true ->
  processCallback s = false /\
  (forall enemy, step (EnemyContact enemy) s = s) /\
  run (map EnemyContact contacts) s = map (fun _ => s) contacts.
Proof.
  intros Ha.
  assert (Hstep : forall enemy, step (EnemyContact enemy) s = s).
  { intros enemy. simpl. unfold enemyCollider.
    rewrite (processCallback_powerUp s Ha). reflexivity. }
  split; [apply processCallback_powerUp; assumption|].
  split; [exact Hstep|].
  induction contacts as [|e rest IH]; cbn [map run]; [reflexivity|].
  rewrite (Hstep e), IH. reflexivity.
Qed.

Lemma hazards_suppressed_while_powerUp_active_witness :
  powerUpActive (powerUp speedScene) = true /\
  activePowerUpType (powerUp speedScene) = Some speed /\
  run (map EnemyContact [ {| enemy_flying := false |};
                          {| enemy_flying := true |} ]) speedScene =
  [speedScene; speedScene].
Proof.
  split; [reflexivity|]. split; [reflexivity|].
  exact (proj2 (proj2 (hazards_suppressed_while_powerUp_active speedScene
           [ {| enemy_flying := false |}; {| enemy_flying := true |} ]
           eq_refl))).
Defined.

(** What [hitEnemy] does when it is called with the shield up: the shield
    is consumed, its duration timer cancelled, the run goes on. *)
Lemma hitEnemy_shield_absorbs p enemy (s : Scene) :
  gameOver s = false ->
  powerUp s = {| powerUpActive := true; activePowerUpType := Some shield |} ->
  let s' := hitEnemy p enemy s in
  powerUp s' = noPowerUp /\ powerUpTimer (timers s') = None /\
  gameOver s' = false.
Proof.
  intros Hg Hp. unfold hitEnemy. rewrite Hg, Hp. simpl.
  repeat split. exact Hg.
Qed.

(** A hazard contact without a power-up ends the run. *)
Lemma enemyCollider_unprotected_ends_run p enemy (s : Scene) :
  gameOver s = false ->
  powerUpActive (powerUp s) = false ->
  gameOver (enemyCollider p enemy s) = true.
Proof.
  intros Hg Ha. unfold enemyCollider, processCallback, hitEnemy.
  rewrite Hg, Ha. simpl. rewrite andb_false_r. apply gameOver_endGame.
Qed.

(** C1, on the code. With the shield up, a hazard contact reported by the
    colliders does not consume the shield: the process callback keeps
    [hitEnemy] from running, the power-up stays active and its duration
    timer stays pending.  [hitEnemy] itself, were it called on that state,
    would consume the shield and cancel the timer. *)
Theorem shield_contact_leaves_shield_up :
  let enemy := {| enemy_flying := false |} in
  let s' := step (EnemyContact enemy) shieldScene in
  gameOver shieldScene = false /\
  powerUp shieldScene =
    {| powerUpActive := true; activePowerUpType := Some shield |} /\
  s' = shieldScene /\
  powerUpActive (powerUp s') = true /\
  powerUpTimer (timers s') =
    Some {| delay := powerUpDuration; loop := false |} /\
  powerUp (hitEnemy (player shieldScene) enemy shieldScene) = noPowerUp /\
  powerUpTimer (timers (hitEnemy (player shieldScene) enemy shieldScene))
    = None.
Proof.
  repeat split.
Qed.

(** ** Restart *)

(** What a restart after game over resets, and what it carries over on
    purpose. *)
Lemma restartGame_resets (s : Scene) :
  gameOver s = true ->
  let s' := restartGame false s in
  gameOver s' = false /\
  score (scoring s') = 0%Z /\
  coinsCollectedForPowerUp (scoring s') = 0%Z /\
  difficulty s' =
    {| scrollSpeed := baseScrollSpeed; spawnDelay := baseSpawnDelay |} /\
  jump s' = {| hasDoubleJumped := false; jumpDownActive := false;
               coyoteTimeCounter := 0; jumpBufferCounter := 0;
               wasInAir := false |} /\
  powerUp s' = noPowerUp /\
  powerUpTimer (timers s') = None /\ comboTimer (timers s') = None /\
  velocityY (player s') = 0 /\
  playerScale s' = playerScale s /\
  highScore (scoring s') = highScore (scoring s).
Proof.
  intros Hg. unfold restartGame. rewrite Hg. simpl.
  repeat split.
Qed.

(** The reset block of [create] has no statement for the combo fields. *)
Lemma restartGame_keeps_combo (f : bool) (s : Scene) :
  let s' := restartGame f s in
  comboCount (scoring s') = comboCount (scoring s) /\
  scoreMultiplier (scoring s') = scoreMultiplier (scoring s) /\
  lastCoinCollectTime (scoring s') = lastCoinCollectTime (scoring s).
Proof.
  unfold restartGame, create. split_ifs; simpl; repeat split.
Qed.

(** C2, on the code. After a run with a combo of three that ended on a
    hazard, the restart brings the scene back to running with score 0, but
    the combo count, the multiplier and the time of the last pickup keep
    the values of the finished run (3, 2, 5400) instead of their create-time
    values (0, 1, 0). *)
Theorem restart_keeps_combo_of_finished_run :
  let s' := restartGame false comboRunEnd in
  gameOver comboRunEnd = true /\
  gameOver s' = false /\ score (scoring s') = 0%Z /\
  comboCount (scoring s') = 3%Z /\
  scoreMultiplier (scoring s') = 2%Z /\
  lastCoinCollectTime (scoring s') = 5400 /\
  comboCount (scoring demoScene) = 0%Z /\
  scoreMultiplier (scoring demoScene) = 1%Z /\
  lastCoinCollectTime (scoring demoScene) = 0.
Proof.
  vm_compute. repeat split.
Qed.

(** ** Spawn cadences *)

Lemma cadence_no_timers (s : Scene) :
  coinSpawnTimer (timers s) = None ->
  enemySpawnTimer (timers s) = None ->
  coin_enemy_cadence s.
Proof. intros H1 H2. split; intros t Ht; congruence. Qed.

Lemma cadence_same (s s' : Scene) :
  difficulty s' = difficulty s ->
  coinSpawnTimer (timers s') = coinSpawnTimer (timers s) ->
  enemySpawnTimer (timers s') = enemySpawnTimer (timers s) ->
  coin_enemy_cadence s -> coin_enemy_cadence s'.
Proof.
  intros Hd Hc He [H1 H2]. unfold coin_enemy_cadence.
  rewrite Hd, Hc, He. split; assumption.
Qed.

Lemma cadence_endGame (s : Scene) :
  coin_enemy_cadence s -> coin_enemy_cadence (endGame s).
Proof.
  intros H. unfold endGame. destruct (gameOver s); [exact H|].
  split_ifs; apply cadence_no_timers; reflexivity.
Qed.

Lemma cadence_create (s : Scene) : coin_enemy_cadence (create s).
Proof.
  unfold create. split_ifs; split; simpl; intros t Ht;
    inversion Ht; reflexivity.
Qed.

Lemma cadence_increaseDifficulty ds (s : Scene) :
  coin_enemy_cadence (increaseDifficulty ds s).
Proof.
  unfold increaseDifficulty, coin_enemy_cadence. simpl.
  split; intros t Ht.
  - destruct (coinSpawnTimer (timers s)); simpl in Ht; inversion Ht.
    reflexivity.
  - destruct (enemySpawnTimer (timers s)); simpl in Ht; inversion Ht.
    reflexivity.
Qed.

Lemma cadence_step (e : Event) (s : Scene) :
  coin_enemy_cadence s -> coin_enemy_cadence (step e s).
Proof.
  intros H. destruct e; simpl.
  - exact H.
  - unfold update. destruct (gameOver s); [exact H|].
    apply cadence_increaseDifficulty.
  - unfold handleJumpInput, restartGame. destruct (gameOver s).
    + split_ifs; [exact H | apply cadence_create].
    + unfold groundJump, doubleJump.
      split_ifs; (eapply cadence_same; [| | |exact H]; reflexivity).
  - unfold restartGame. split_ifs; [exact H | apply cadence_create].
  - unfold collectCoin, countTowardsPowerUp, awardScore, comboSystem,
      triggerPowerUp.
    split_ifs; (eapply cadence_same; [| | |exact H]; reflexivity).
  - unfold enemyCollider, hitEnemy.
    split_ifs; try exact H; apply cadence_endGame; exact H.
  - unfold playerFellInPit.
    split_ifs; try exact H; apply cadence_endGame; exact H.
  - split_ifs; [|exact H].
    eapply cadence_same; [| | |exact H]; reflexivity.
  - split_ifs; [|exact H].
    eapply cadence_same; [| | |exact H]; reflexivity.
Qed.

(** The part of C5 that holds: in every state of every trace that starts at
    [create], restarts included, a coin timer that exists has delay 1.1
    times the base spawn delay and a hazard timer has the base spawn
    delay. *)
Lemma coin_enemy_cadence_invariant (evs : list Event) : forall s : Scene,
  coin_enemy_cadence s -> Forall coin_enemy_cadence (run evs s).
Proof.
  induction evs as [|e rest IH]; intros s H; cbn [run]; constructor.
  - apply cadence_step; exact H.
  - apply IH. apply cadence_step; exact H.
Qed.

Lemma pit_cadence_increaseDifficulty ds (s : Scene) :
  pit_cadence_1_8 (increaseDifficulty ds s).
Proof.
  unfold increaseDifficulty, pit_cadence_1_8. simpl. intros t Ht.
  destruct (gapSpawnTimer (timers s)); simpl in Ht; inversion Ht.
  reflexivity.
Qed.

(** Once a frame has run, the pit timer follows the factor 1.8. *)
Lemma pit_cadence_after_update time delta j d (s : Scene) :
  gameOver s = false -> pit_cadence_1_8 (update time delta j d s).
Proof.
  intros Hg. unfold update. rewrite Hg.
  apply pit_cadence_increaseDifficulty.
Qed.

(** C5, on the code. [startSpawning] gives the pit timer 2.0 times the base
    spawn delay (3400 ms at the start of a run, as the specification has
    it), but the first frame, here of 16 ms, lets [increaseDifficulty] set
    it to
    max(1.8 x base delay, 2.5 x floor), about 3059 ms, where the specified
    max(2.0 x base delay, 2.5 x floor) is about 3399 ms. *)
Theorem pit_cadence_drops_to_1_8_after_first_frame :
  let s := step (Update 16 16 false false) demoScene in
  pit_cadence_2_0 demoScene /\
  coin_enemy_cadence s /\
  pit_cadence_1_8 s /\
  ~ pit_cadence_2_0 s /\
  (exists t, gapSpawnTimer (timers s) = Some t /\
             delay t == 3059.4816 /\
             Qmax (spawnDelay (difficulty s) * 2.0) (minSpawnDelay * 2.5)
               == 3399.424).
Proof.
  intros s.
  assert (Ht : exists t, gapSpawnTimer (timers s) = Some t /\
                         delay t == 3059.4816).
  { destruct (gapSpawnTimer (timers s)) as [t|] eqn:E.
    - exists t. split; [reflexivity|].
      vm_compute in E. inversion E. vm_compute. reflexivity.
    - vm_compute in E. discriminate E. }
  assert (Hmax : Qmax (spawnDelay (difficulty s) * 2.0) (minSpawnDelay * 2.5)
                 == 3399.424) by (vm_compute; reflexivity).
  split; [|split; [|split; [|split]]].
  - intros t E. vm_compute in E. inversion E. vm_compute. reflexivity.
  - apply cadence_step. apply cadence_create.
  - apply pit_cadence_after_update. vm_compute. reflexivity.
  - intros H. destruct Ht as (t & E & Hd).
    specialize (H t E). rewrite Hmax, Hd in H.
    vm_compute in H. discriminate H.
  - destruct Ht as (t & E & Hd). exists t. repeat split; assumption.
Qed.

(** ** Movement *)

Lemma touching_jumpPhase delta j (s : Scene) :
  touching_down (player (jumpPhase delta j s)) = touching_down (player s).
Proof.
  unfold jumpPhase, jumpLogic, landingLogic.
  split_ifs; try reflexivity; simpl; congruence.
Qed.

Lemma jump_verticalBounds (s : Scene) : jump (verticalBounds s) = jump s.
Proof.
  unfold verticalBounds, endGame. split_ifs; reflexivity.
Qed.

Lemma jump_finishTick delta (s : Scene) : jump (finishTick delta s) = jump s.
Proof.
  unfold finishTick. change (jump (increaseDifficulty (delta / 1000)
    (verticalBounds s))) with (jump (verticalBounds s)).
  apply jump_verticalBounds.
Qed.

Lemma velocityY_endGame (s : Scene) :
  velocityY (player (endGame s)) = velocityY (player s).
Proof. unfold endGame. split_ifs; reflexivity. Qed.

(** Below the ceiling the bounds check and the ramp leave the velocity. *)
Lemma velocityY_finishTick delta (s : Scene) :
  Qltb (player_y (player s)) (- player_height (player s)) = false ->
  velocityY (player (finishTick delta s)) = velocityY (player s).
Proof.
  intros H. unfold finishTick.
  change (player (increaseDifficulty (delta / 1000) (verticalBounds s)))
    with (player (verticalBounds s)).
  unfold verticalBounds. rewrite H.
  split_ifs; [apply velocityY_endGame | reflexivity].
Qed.

(** C8. In a tick of an active run in which the character is airborne and
    fast-fall is pressed: if the jump-buffer counter, as the tick's jump
    handling leaves it, is not positive, the jump-down statement sets the
    velocity to 500 and the fast-falling flag, the flag is still set when
    the tick ends, and so is the velocity unless the ceiling clamp of the
    same tick applies; if the counter is positive, the tick is the one that
    would have run without the fast-fall input. *)
Theorem fast_fall_unless_jump_buffered time delta jumpKey (s : Scene) :
  gameOver s = false ->
  touching_down (player s) = false ->
  let before := jumpPhase delta jumpKey s in
  let after := movement delta jumpKey true s in
  (jumpBufferCounter (jump before) <= 0 ->
     velocityY (player after) = 500 /\
     jumpDownActive (jump after) = true /\
     update time delta jumpKey true s = finishTick delta after /\
     jumpDownActive (jump (update time delta jumpKey true s)) = true /\
     (- player_height (player s) <= player_y (player s) ->
      velocityY (player (update time delta jumpKey true s)) = 500)) /\
  (0 < jumpBufferCounter (jump before) ->
     update time delta jumpKey true s = update time delta jumpKey false s).
Proof.
  intros Hg Hair before after. split.
  - intros Hb. apply Qltb_ge in Hb.
    assert (Hafter : after =
              upd_jump (set_jumpDownActive true) (setVelocityY 500 before)).
    { unfold after, movement, bufferAndJumpDown. fold before.
      rewrite Hb, Hair. reflexivity. }
    assert (Hupd : update time delta jumpKey true s = finishTick delta after).
    { unfold update. rewrite Hg. reflexivity. }
    split; [rewrite Hafter; reflexivity|].
    split; [rewrite Hafter; reflexivity|].
    split; [exact Hupd|].
    split.
    + rewrite Hupd, jump_finishTick, Hafter. reflexivity.
    + intros Hy. rewrite Hupd, velocityY_finishTick.
      * rewrite Hafter. reflexivity.
      * rewrite Hafter.
        change (player_y (player (upd_jump (set_jumpDownActive true)
                  (setVelocityY 500 before))))
          with (player_y (player before)).
        change (player_height (player (upd_jump (set_jumpDownActive true)
                  (setVelocityY 500 before))))
          with (player_height (player before)).
        apply Qltb_ge.
        assert (Hp : player_y (player before) = player_y (player s) /\
                     player_height (player before) = player_height (player s)).
        { unfold before, jumpPhase, jumpLogic, landingLogic.
          split_ifs; split; reflexivity. }
        destruct Hp as [-> ->]. exact Hy.
  - intros Hb. apply Qltb_lt in Hb.
    unfold update. rewrite Hg. f_equal.
    unfold movement, bufferAndJumpDown. fold before. rewrite Hb. reflexivity.
Qed.

Lemma fast_fall_unless_jump_buffered_witness :
  gameOver airScene = false /\
  touching_down (player airScene) = false /\
  velocityY (player (update 16 16 false true airScene)) = 500.
Proof.
  split; [reflexivity|]. split; [reflexivity|].
  destruct (fast_fall_unless_jump_buffered 16 16 false airScene
              eq_refl eq_refl) as [H _].
  destruct H as (_ & _ & _ & _ & H).
  - vm_compute. discriminate.
  - apply H. vm_compute. discriminate.
Defined.

Lemma verticalBounds_in_world (s : Scene) :
  in_world (scale_height s) (player s) -> verticalBounds s = s.
Proof.
  intros [Hlo Hhi]. unfold verticalBounds.
  apply Qltb_ge in Hlo. rewrite Hlo.
  apply Qltb_ge in Hhi. rewrite Hhi. reflexivity.
Qed.

(** A frame of an active run with the body inside the world, in terms of
    the movement rules alone. *)
Lemma frame_in_world (f : Frame) (s : Scene) :
  gameOver s = false ->
  in_world (scale_height s) (f_body f) ->
  let m := movement (f_delta f) (f_jump f) (f_down f)
                    (set_player (f_body f) s) in
  player_y (player m) = player_y (f_body f) ->
  player_height (player m) = player_height (f_body f) ->
  scale_height m = scale_height s ->
  frame f s = increaseDifficulty (f_delta f / 1000) m.
Proof.
  intros Hg Hw m Hy Hh Hs. unfold frame, update.
  change (gameOver (set_player (f_body f) s)) with (gameOver s).
  rewrite Hg. unfold finishTick. fold m.
  rewrite verticalBounds_in_world; [reflexivity|].
  unfold in_world. rewrite Hy, Hh, Hs. exact Hw.
Qed.

Lemma movement_static delta j d (s : Scene) :
  let m := movement delta j d s in
  player_y (player m) = player_y (player s) /\
  player_height (player m) = player_height (player s) /\
  scale_height m = scale_height s /\
  gameOver m = gameOver s.
Proof.
  unfold movement, jumpPhase, bufferAndJumpDown, jumpLogic, landingLogic.
  split_ifs; repeat split; reflexivity.
Qed.

Lemma frame_movement (f : Frame) (s : Scene) :
  gameOver s = false ->
  in_world (scale_height s) (f_body f) ->
  frame f s = increaseDifficulty (f_delta f / 1000)
                (movement (f_delta f) (f_jump f) (f_down f)
                          (set_player (f_body f) s)).
Proof.
  intros Hg Hw.
  destruct (movement_static (f_delta f) (f_jump f) (f_down f)
              (set_player (f_body f) s)) as (Hy & Hh & Hs & _).
  apply frame_in_world; assumption.
Qed.

(** The frame in which jump is pressed with the double jump spent: the
    buffer is registered and at once reduced by that frame's delta. *)
Lemma press_frame (f : Frame) (s : Scene) :
  spent_airborne s ->
  touching_down (f_body f) = false -> f_jump f = true ->
  sane_frame (scale_height s) f ->
  spent_airborne (frame f s) /\
  scale_height (frame f s) = scale_height s /\
  fx (frame f s) = fx s /\
  jumpBufferCounter (jump (frame f s)) = jumpBufferDuration - f_delta f.
Proof.
  intros (Hg & Hdj & Hc) Ht Hj (Hd & Hw).
  rewrite (frame_movement f s Hg Hw).
  assert (Hcoy : Qltb 0 (coyoteTimeCounter (jump s) - f_delta f) = false).
  { apply Qltb_ge. lra. }
  assert (Hm : movement (f_delta f) (f_jump f) (f_down f)
                 (set_player (f_body f) s) =
               upd_jump (fun j => set_jumpBufferCounter
                                    (jumpBufferCounter j - f_delta f) j)
                 (upd_jump (set_jumpBufferCounter jumpBufferDuration)
                   (upd_jump (fun j => set_coyoteTimeCounter
                                         (coyoteTimeCounter j - f_delta f) j)
                     (upd_jump (set_wasInAir false)
                        (set_player (f_body f) s))))).
  { unfold movement, jumpPhase, landingLogic, jumpLogic, bufferAndJumpDown.
    cbn [player set_player]. rewrite Ht, Hj.
    cbn -[Qltb Qminus jumpBufferDuration]. rewrite Hcoy, Hdj.
    cbn -[Qltb Qminus jumpBufferDuration].
    replace (Qltb 0 jumpBufferDuration) with true by reflexivity.
    reflexivity. }
  rewrite Hm. repeat split.
  - exact Hg.
  - exact Hdj.
  - cbn -[Qminus]. lra.
Qed.

(** An airborne frame without a jump press, while the buffer is positive:
    the buffer loses that frame's delta and nothing else happens to the
    jump state. *)
Lemma coasting_frame (f : Frame) (s : Scene) :
  spent_airborne s ->
  0 < jumpBufferCounter (jump s) ->
  coasting f ->
  sane_frame (scale_height s) f ->
  spent_airborne (frame f s) /\
  scale_height (frame f s) = scale_height s /\
  fx (frame f s) = fx s /\
  jumpBufferCounter (jump (frame f s)) =
    jumpBufferCounter (jump s) - f_delta f.
Proof.
  intros (Hg & Hdj & Hc) Hb (Ht & Hj) (Hd & Hw).
  rewrite (frame_movement f s Hg Hw).
  apply Qltb_lt in Hb.
  assert (Hm : movement (f_delta f) (f_jump f) (f_down f)
                 (set_player (f_body f) s) =
               upd_jump (fun j => set_jumpBufferCounter
                                    (jumpBufferCounter j - f_delta f) j)
                 (upd_jump (fun j => set_coyoteTimeCounter
                                       (coyoteTimeCounter j - f_delta f) j)
                   (upd_jump (set_wasInAir false)
                      (set_player (f_body f) s)))).
  { unfold movement, jumpPhase, landingLogic, jumpLogic, bufferAndJumpDown.
    cbn [player set_player]. rewrite Ht, Hj.
    cbn -[Qltb Qminus]. rewrite Hb. reflexivity. }
  rewrite Hm. repeat split.
  - exact Hg.
  - exact Hdj.
  - cbn -[Qminus]. lra.
Qed.

Lemma sum_delta_cons (f : Frame) (fs : list Frame) :
  sum_delta (f :: fs) = f_delta f + sum_delta fs.
Proof. reflexivity. Qed.

Lemma sum_delta_nonneg (h : Q) (fs : list Frame) :
  Forall (sane_frame h) fs -> 0 <= sum_delta fs.
Proof.
  induction 1 as [|f rest [Hd _] _ IH].
  - apply Qle_refl.
  - rewrite sum_delta_cons. lra.
Qed.

(** Coasting frames whose deltas sum to less than the buffer. *)
Lemma coasting_frames (fs : list Frame) : forall s : Scene,
  spent_airborne s ->
  Forall coasting fs ->
  Forall (sane_frame (scale_height s)) fs ->
  sum_delta fs < jumpBufferCounter (jump s) ->
  spent_airborne (frames fs s) /\
  scale_height (frames fs s) = scale_height s /\
  fx (frames fs s) = fx s /\
  jumpBufferCounter (jump (frames fs s)) ==
    jumpBufferCounter (jump s) - sum_delta fs.
Proof.
  induction fs as [|f rest IH]; intros s Hs Hco Hsane Hsum.
  - change (frames [] s) with s. change (sum_delta []) with 0.
    repeat split; try apply Hs. lra.
  - inversion Hco as [|? ? Hf Hrest]; subst.
    inversion Hsane as [|? ? Hsf Hsrest]; subst.
    pose proof (sum_delta_nonneg _ _ Hsrest) as Hrest_nonneg.
    rewrite sum_delta_cons in Hsum |- *.
    assert (Hb : 0 < jumpBufferCounter (jump s)).
    { destruct Hsf as [Hd _]. lra. }
    destruct (coasting_frame f s Hs Hb Hf Hsf) as (Hs' & Hh & Hfx & Hbuf).
    change (frames (f :: rest) s) with (frames rest (frame f s)).
    destruct (IH (frame f s) Hs' Hrest) as (Hs'' & Hh' & Hfx' & Hbuf').
    + rewrite Hh. exact Hsrest.
    + rewrite Hbuf. lra.
    + split; [exact Hs''|]. split; [congruence|]. split; [congruence|].
      rewrite Hbuf', Hbuf. lra.
Qed.

(** The landing frame with a positive buffer: the landing block jumps. *)
Lemma landing_frame (f : Frame) (s : Scene) :
  gameOver s = false ->
  0 < jumpBufferCounter (jump s) ->
  touching_down (f_body f) = true ->
  in_world (scale_height s) (f_body f) ->
  gameOver (frame f s) = false /\
  velocityY (player (frame f s)) = -575 /\
  jumpBufferCounter (jump (frame f s)) = 0 /\
  (f_jump f = false ->
   count_fx JumpDust (fx (frame f s)) = S (count_fx JumpDust (fx s))) /\
  (f_jump f = true ->
   count_fx JumpDust (fx (frame f s)) = S (S (count_fx JumpDust (fx s)))).
Proof.
  intros Hg Hb Ht Hw.
  rewrite (frame_movement f s Hg Hw).
  apply Qltb_lt in Hb.
  unfold movement, jumpPhase, landingLogic, jumpLogic, bufferAndJumpDown.
  cbn [player set_player]. rewrite Ht.
  destruct (wasInAir (jump (set_player (f_body f) s))) eqn:Hw';
    cbn -[Qltb]; rewrite Hb; destruct (f_jump f);
    cbn -[Qltb];
    (replace (Qltb 0 0) with false by reflexivity);
    rewrite ?andb_false_r; repeat split; try assumption; try discriminate.
Qed.

(** The pointer handler on a grounded character with a pending buffer runs
    the same ground jump, once. *)
Lemma handleJumpInput_buffered_landing (fadeRunning : bool) (s : Scene) :
  gameOver s = false ->
  touching_down (player s) = true ->
  0 < jumpBufferCounter (jump s) ->
  let s' := handleJumpInput fadeRunning s in
  velocityY (player s') = -575 /\
  jumpBufferCounter (jump s') = 0 /\
  count_fx JumpDust (fx s') = S (count_fx JumpDust (fx s)).
Proof.
  intros Hg Ht Hb. apply Qltb_lt in Hb.
  unfold handleJumpInput. rewrite Hg, Ht, Hb. repeat split.
Qed.

(** C7 as amended. Jump is pressed in an airborne frame with the double
    jump spent; airborne frames without a press follow; then the character
    lands.  If the deltas of the press frame and of the airborne frames
    after it sum to less than the 100 ms of the buffer (the counter is
    reduced in the press frame already, and not by the landing frame), the
    run is active with the body inside the world, and jump is not pressed
    again in the landing frame, then exactly one ground jump has run when
    the landing frame ends: the velocity is -575, the buffer counter is 0
    and one jump burst was emitted since the press. *)
Theorem buffered_jump_runs_once_on_landing (s : Scene) (press : Frame)
  (air : list Frame) (land : Frame) :
  spent_airborne s ->
  touching_down (f_body press) = false -> f_jump press = true ->
  Forall coasting air ->
  Forall (sane_frame (scale_height s)) (press :: air) ->
  in_world (scale_height s) (f_body land) ->
  touching_down (f_body land) = true ->
  f_jump land = false ->
  f_delta press + sum_delta air < jumpBufferDuration ->
  let s' := frame land (frames (press :: air) s) in
  gameOver s' = false /\
  velocityY (player s') = -575 /\
  jumpBufferCounter (jump s') = 0 /\
  count_fx JumpDust (fx s') = S (count_fx JumpDust (fx s)).
Proof.
  intros Hs Ht Hj Hco Hsane Hw Hl Hjl Hsum.
  inversion Hsane as [|? ? Hsp Hsa]; subst.
  destruct (press_frame press s Hs Ht Hj Hsp) as (Hs1 & Hh1 & Hfx1 & Hb1).
  change (frames (press :: air) s) with (frames air (frame press s)).
  destruct (coasting_frames air (frame press s) Hs1 Hco) as
    (Hs2 & Hh2 & Hfx2 & Hb2).
  { rewrite Hh1. exact Hsa. }
  { rewrite Hb1. lra. }
  set (s1 := frames air (frame press s)) in *.
  assert (Hpos : 0 < jumpBufferCounter (jump s1)).
  { rewrite Hb2, Hb1. lra. }
  assert (Hw1 : in_world (scale_height s1) (f_body land)).
  { rewrite Hh2, Hh1. exact Hw. }
  destruct Hs2 as (Hg2 & _).
  destruct (landing_frame land s1 Hg2 Hpos Hl Hw1) as
    (Hg' & Hv & Hb' & Hc & _).
  cbv zeta. repeat split; try assumption.
  rewrite (Hc Hjl), Hfx2, Hfx1. reflexivity.
Qed.

Lemma spentScene_spent : spent_airborne spentScene.
Proof.
  split; [vm_compute; reflexivity|].
  split; [vm_compute; reflexivity | vm_compute; discriminate].
Qed.

Lemma buffered_jump_runs_once_on_landing_witness :
  let press := pressFrame 232 16 in
  let air := [coastFrame 248 16; coastFrame 264 16] in
  let land := landFrame 280 16 in
  let s' := frame land (frames (press :: air) spentScene) in
  spent_airborne spentScene /\
  f_delta press + sum_delta air < jumpBufferDuration /\
  velocityY (player s') = -575 /\
  jumpBufferCounter (jump s') = 0 /\
  count_fx JumpDust (fx s') = S (count_fx JumpDust (fx spentScene)).
Proof.
  intros press air land s'.
  assert (Hsum : f_delta press + sum_delta air < jumpBufferDuration)
    by (vm_compute; reflexivity).
  assert (Hsane : Forall (sane_frame (scale_height spentScene))
                         (press :: air)).
  { repeat constructor; vm_compute; discriminate. }
  assert (Hw : in_world (scale_height spentScene) (f_body land)).
  { split; vm_compute; discriminate. }
  assert (Hco : Forall coasting air) by (repeat constructor).
  pose proof (buffered_jump_runs_once_on_landing spentScene press air land
                spentScene_spent eq_refl eq_refl Hco Hsane Hw eq_refl eq_refl
                Hsum) as (_ & Hv & Hb & Hc).
  split; [exact spentScene_spent|]. split; [exact Hsum|].
  split; [exact Hv|]. split; [exact Hb | exact Hc].
Defined.

(** C7 as stated fails. Jump is pressed in a frame of 50 ms, one airborne
    frame of 50 ms follows and the character lands in the next frame,
    16 ms later: the press is 66 ms before the landing tick, yet the
    counter reached 0 before the landing and no ground jump runs. *)
Lemma buffered_jump_within_window_counterexample :
  let press := pressFrame 266 50 in
  let air := [coastFrame 316 50] in
  let land := landFrame 332 16 in
  let s' := frame land (frames (press :: air) spentScene) in
  spent_airborne spentScene /\
  f_time land - f_time press <= jumpBufferDuration /\
  sum_delta air + f_delta land <= jumpBufferDuration /\
  gameOver s' = false /\
  touching_down (player s') = true /\
  ~ velocityY (player s') == -575 /\
  count_fx JumpDust (fx s') = count_fx JumpDust (fx spentScene).
Proof.
  intros press air land s'.
  split; [exact spentScene_spent|].
  split; [vm_compute; discriminate|].
  split; [vm_compute; discriminate|].
  split; [vm_compute; reflexivity|].
  split; [vm_compute; reflexivity|].
  split; [vm_compute; discriminate|].
  vm_compute. reflexivity.
Qed.

(** * Further properties of the scene *)

Ltac Qprops :=
  repeat match goal with
         | H : Qltb _ _ = true |- _ => apply Qltb_lt in H
         | H : Qltb _ _ = false |- _ => apply Qltb_ge in H
         end.

(** ** Power-up consistency *)

Lemma powerUp_consistent_endGame (s : Scene) :
  powerUp_consistent s -> powerUp_consistent (endGame s).
Proof.
  unfold powerUp_consistent, endGame. intros H.
  destruct (gameOver s); [exact H|].
  cbn. destruct (powerUpActive (powerUp s)) eqn:Ha; cbn.
  - repeat split.
  - rewrite Ha. destruct H as (H1 & _ & _). repeat split. exact H1.
Qed.

Lemma powerUp_consistent_same (s s' : Scene) :
  powerUp s' = powerUp s ->
  powerUpTimer (timers s') = powerUpTimer (timers s) ->
  powerUpFlashEvent (timers s') = powerUpFlashEvent (timers s) ->
  powerUp_consistent s -> powerUp_consistent s'.
Proof.
  unfold powerUp_consistent. intros -> -> ->. exact (fun H => H).
Qed.

Lemma powerUp_consistent_create (s : Scene) : powerUp_consistent (create s).
Proof.
  unfold powerUp_consistent, create. cbv zeta.
  match goal with
  | |- context [match data ?x with Some _ => _ | None => _ end] =>
      destruct (data x)
  end; cbn; repeat split.
Qed.

Lemma powerUp_consistent_triggerPowerUp pick (s : Scene) :
  powerUp_consistent s -> powerUp_consistent (triggerPowerUp pick s).
Proof.
  unfold powerUp_consistent, triggerPowerUp. intros H.
  destruct (powerUpActive (powerUp s)) eqn:Ha; [rewrite Ha; exact H|].
  destruct H as (_ & _ & Hf).
  destruct pick; cbn; repeat split; try discriminate.
  intros Hne. exfalso. apply Hne. exact Hf.
Qed.

Lemma powerUp_consistent_movement delta j d (s : Scene) :
  powerUp_consistent s -> powerUp_consistent (movement delta j d s).
Proof.
  apply powerUp_consistent_same;
    unfold movement, jumpPhase, bufferAndJumpDown, jumpLogic, landingLogic;
    split_ifs; reflexivity.
Qed.

Lemma powerUp_consistent_verticalBounds (s : Scene) :
  powerUp_consistent s -> powerUp_consistent (verticalBounds s).
Proof.
  intros H. unfold verticalBounds.
  destruct (Qltb (player_y (player s)) (- player_height (player s)));
    match goal with
    | |- context [if ?c then _ else _] => destruct c
    end;
    try apply powerUp_consistent_endGame;
    try (eapply powerUp_consistent_same; [| | |exact H]; reflexivity);
    exact H.
Qed.

Lemma powerUp_consistent_increaseDifficulty ds (s : Scene) :
  powerUp_consistent s -> powerUp_consistent (increaseDifficulty ds s).
Proof. apply powerUp_consistent_same; reflexivity. Qed.

Lemma powerUp_consistent_collectCoin now pick p coin (s : Scene) :
  powerUp_consistent s -> powerUp_consistent (collectCoin now pick p coin s).
Proof.
  intros H. unfold collectCoin. destruct (negb (coin_active coin)); [exact H|].
  cbv zeta.
  set (s1 := awardScore now (comboSystem now (emit CoinBurst s))).
  assert (H1 : powerUp_consistent s1).
  { eapply powerUp_consistent_same; [| | |exact H];
      unfold s1, awardScore, comboSystem; split_ifs; reflexivity. }
  clearbody s1. unfold countTowardsPowerUp.
  match goal with
  | |- context [if ?c then _ else _] => destruct c
  end.
  - eapply powerUp_consistent_same;
      [| | |apply (powerUp_consistent_triggerPowerUp pick)].
    + reflexivity.
    + reflexivity.
    + reflexivity.
    + eapply powerUp_consistent_same; [| | |exact H1]; reflexivity.
  - eapply powerUp_consistent_same; [| | |exact H1]; reflexivity.
Qed.

Lemma powerUp_consistent_step (e : Event) (s : Scene) :
  powerUp_consistent s -> powerUp_consistent (step e s).
Proof.
  intros H. destruct e; cbn [step].
  - exact H.
  - unfold update. destruct (gameOver s); [exact H|]. unfold finishTick.
    apply powerUp_consistent_increaseDifficulty,
      powerUp_consistent_verticalBounds, powerUp_consistent_movement, H.
  - unfold handleJumpInput, restartGame. destruct (gameOver s).
    + destruct (negb true || fadeRunning);
        [exact H | apply powerUp_consistent_create].
    + eapply powerUp_consistent_same; [| | |exact H];
        unfold groundJump, doubleJump; split_ifs; reflexivity.
  - unfold restartGame.
    destruct (negb (gameOver s) || fadeRunning);
      [exact H | apply powerUp_consistent_create].
  - apply powerUp_consistent_collectCoin, H.
  - unfold enemyCollider, processCallback, hitEnemy.
    destruct (powerUpActive (powerUp s)) eqn:Ha; cbn [negb andb];
      [exact H|].
    destruct (gameOver s) eqn:Hg; cbn [negb]; [exact H|].
    rewrite andb_false_r. apply powerUp_consistent_endGame, H.
  - unfold playerFellInPit.
    destruct (gameOver s); [exact H|].
    match goal with
    | |- context [if ?c then _ else _] => destruct c
    end; [apply powerUp_consistent_endGame, H | exact H].
  - destruct (comboTimer (timers s)); [|exact H].
    eapply powerUp_consistent_same; [| | |exact H]; reflexivity.
  - destruct (powerUpTimer (timers s)); [|exact H].
    unfold powerUp_consistent, endPowerUp. cbn. repeat split.
Qed.

(** X1. In every state of every trace that starts at [create], restarts
    included, a power-up is active exactly when its type is set and its
    duration timer is pending, and a flash event exists only for the speed
    surge. *)
Theorem powerUp_fields_consistent (evs : list Event) (s0 : Scene) :
  Forall powerUp_consistent (run evs (create s0)).
Proof.
  assert (G : forall s, powerUp_consistent s ->
                        Forall powerUp_consistent (run evs s)).
  { induction evs as [|e rest IH]; intros s H; cbn [run]; constructor.
    - apply powerUp_consistent_step, H.
    - apply IH, powerUp_consistent_step, H. }
  apply G, powerUp_consistent_create.
Qed.

(** ** Scoring *)

Lemma comboMultiplier_range (c : Z) : (1 <= comboMultiplier c <= 4)%Z.
Proof.
  unfold comboMultiplier.
  destruct (8 <=? c)%Z; destruct (5 <=? c)%Z; destruct (3 <=? c)%Z; lia.
Qed.

Lemma scoring_endGame (s : Scene) : scoring (endGame s) = scoring s.
Proof. unfold endGame. split_ifs; reflexivity. Qed.

Lemma scoring_update time delta j d (s : Scene) :
  scoring (update time delta j d s) = scoring s.
Proof.
  unfold update. destruct (gameOver s); [reflexivity|].
  unfold finishTick.
  change (scoring (increaseDifficulty (delta / 1000)
            (verticalBounds (movement delta j d s))))
    with (scoring (verticalBounds (movement delta j d s))).
  transitivity (scoring (movement delta j d s)).
  - unfold verticalBounds. split_ifs; rewrite ?scoring_endGame; reflexivity.
  - unfold movement, jumpPhase, bufferAndJumpDown, jumpLogic, landingLogic.
    split_ifs; reflexivity.
Qed.

Lemma scoring_create (s : Scene) :
  scoring (create s) =
  set_coinsCollectedForPowerUp 0 (set_score 0 (scoring s)).
Proof.
  unfold create. cbv zeta.
  match goal with
  | |- context [match data ?x with Some _ => _ | None => _ end] =>
      destruct (data x)
  end; reflexivity.
Qed.

Lemma scoring_jump_input (s : Scene) :
  gameOver s = false -> forall f, scoring (handleJumpInput f s) = scoring s.
Proof.
  intros Hg f. unfold handleJumpInput, groundJump, doubleJump. rewrite Hg.
  split_ifs; reflexivity.
Qed.

Lemma scoring_enemyCollider p enemy (s : Scene) :
  scoring (enemyCollider p enemy s) = scoring s.
Proof.
  unfold enemyCollider, hitEnemy.
  split_ifs; rewrite ?scoring_endGame; reflexivity.
Qed.

Lemma scoring_playerFellInPit p pit (s : Scene) :
  scoring (playerFellInPit p pit s) = scoring s.
Proof.
  unfold playerFellInPit. split_ifs; rewrite ?scoring_endGame; reflexivity.
Qed.

(** The pickup counter after a pickup is 0 or one more than before. *)
Lemma collectCoin_counter now pick p coin (s : Scene) :
  coin_active coin = true ->
  let s' := collectCoin now pick p coin s in
  coinsCollectedForPowerUp (scoring s') = 0%Z \/
  coinsCollectedForPowerUp (scoring s') =
    (coinsCollectedForPowerUp (scoring s) + 1)%Z.
Proof.
  intros Hc. pose proof (collectCoin_powerUp now pick p coin s Hc) as H.
  cbv zeta in *.
  destruct (negb (powerUpActive (powerUp s)) &&
            (20 <=? coinsCollectedForPowerUp (scoring s) + 1)%Z);
    [left | right]; apply H.
Qed.

Lemma scoring_ok_collectCoin now pick p coin (s : Scene) :
  scoring_ok s -> scoring_ok (collectCoin now pick p coin s).
Proof.
  intros H. destruct (coin_active coin) eqn:Hc.
  - destruct (collectCoin_combo now pick p coin s Hc) as (Hcc & Hm & Hs & _).
    pose proof (collectCoin_counter now pick p coin s Hc) as Hk.
    cbv zeta in Hk.
    destruct H as (H0 & H10 & Hmul & Hcombo & Hcnt).
    unfold scoring_ok. rewrite Hcc, Hm, Hs.
    pose proof (comboMultiplier_range
      (if Qltb (now - lastCoinCollectTime (scoring s)) comboTimeWindow
       then (comboCount (scoring s) + 1)%Z else 1%Z)) as Hr.
    unfold baseScore.
    repeat split; try lia.
    + apply Z.divide_add_r; [exact H10 | apply Z.divide_factor_l].
    + destruct (Qltb (now - lastCoinCollectTime (scoring s)) comboTimeWindow);
        lia.
  - unfold collectCoin. rewrite Hc. exact H.
Qed.

Lemma scoring_ok_step (e : Event) (s : Scene) :
  scoring_ok s -> scoring_ok (step e s).
Proof.
  intros H. destruct e; cbn [step].
  - exact H.
  - unfold scoring_ok. rewrite scoring_update. exact H.
  - destruct (gameOver s) eqn:Hg.
    + unfold handleJumpInput, restartGame. rewrite Hg.
      destruct (negb true || fadeRunning); [exact H|].
      unfold scoring_ok. rewrite scoring_create. cbn.
      destruct H as (_ & _ & Hm & Hc & _).
      repeat split; try lia. apply Z.divide_0_r.
    + unfold scoring_ok. rewrite (scoring_jump_input s Hg). exact H.
  - unfold restartGame.
    destruct (negb (gameOver s) || fadeRunning); [exact H|].
    unfold scoring_ok. rewrite scoring_create. cbn.
    destruct H as (_ & _ & Hm & Hc & _).
    repeat split; try lia. apply Z.divide_0_r.
  - apply scoring_ok_collectCoin, H.
  - unfold scoring_ok. rewrite scoring_enemyCollider. exact H.
  - unfold scoring_ok. rewrite scoring_playerFellInPit. exact H.
  - destruct (comboTimer (timers s)); [|exact H].
    destruct H as (H0 & H10 & _ & _ & Hk).
    unfold scoring_ok, comboTimerCallback. cbn. repeat split; try lia.
    exact H10.
  - destruct (powerUpTimer (timers s)); exact H.
Qed.

(** X2. In every state of every trace from the first [create], restarts
    included: the score is a non-negative multiple of 10, the multiplier is
    between 1 and 4, and the combo count and the pickup counter are never
    negative. *)
Theorem scoring_fields_in_range (h ph : Q) (evs : list Event) :
  Forall scoring_ok (run evs (create (constructed h ph))).
Proof.
  assert (G : forall s, scoring_ok s -> Forall scoring_ok (run evs s)).
  { induction evs as [|e rest IH]; intros s H; cbn [run]; constructor.
    - apply scoring_ok_step, H.
    - apply IH, scoring_ok_step, H. }
  apply G. unfold scoring_ok. rewrite scoring_create. cbn.
  repeat split; try lia. apply Z.divide_0_r.
Qed.

(** One event that does not restart: the score stays, or a pickup of an
    active coin adds between 10 and 40. *)
Lemma score_step (e : Event) (s : Scene) :
  restarts e s = false ->
  (score (scoring s) + 10 * pickups [e] <= score (scoring (step e s))
   <= score (scoring s) + 40 * pickups [e])%Z.
Proof.
  intros Hr. destruct e; cbn [step]; unfold pickups; cbn [filter length].
  - cbn. lia.
  - rewrite scoring_update. cbn. lia.
  - cbn in Hr. destruct (gameOver s) eqn:Hg.
    + unfold handleJumpInput, restartGame. rewrite Hg.
      cbn in Hr. destruct fadeRunning; [|discriminate]. cbn. lia.
    + rewrite (scoring_jump_input s Hg). cbn. lia.
  - cbn in Hr. unfold restartGame. destruct (gameOver s); cbn in *.
    + destruct fadeRunning; [|discriminate]. cbn. lia.
    + lia.
  - destruct (coin_active coin) eqn:Hc.
    + destruct (collectCoin_combo now pick (player s) coin s Hc)
        as (_ & _ & Hs & _). rewrite Hs. unfold baseScore.
      pose proof (comboMultiplier_range
        (if Qltb (now - lastCoinCollectTime (scoring s)) comboTimeWindow
         then (comboCount (scoring s) + 1)%Z else 1%Z)) as Hm.
      cbn [length]. lia.
    + unfold collectCoin. rewrite Hc. cbn. lia.
  - rewrite scoring_enemyCollider. cbn. lia.
  - rewrite scoring_playerFellInPit. cbn. lia.
  - destruct (comboTimer (timers s)); cbn; lia.
  - destruct (powerUpTimer (timers s)); cbn; lia.
Qed.

Lemma pickups_cons (e : Event) (evs : list Event) :
  pickups (e :: evs) = (pickups [e] + pickups evs)%Z.
Proof.
  unfold pickups. cbn [filter].
  match goal with
  | |- context [if ?c then _ else _] => destruct c
  end; cbn [length]; lia.
Qed.

(** X3. Within a single run the score never goes down: after a trace without
    a restart it has grown by at least 10 and at most 40 for every pickup
    of an active coin, and by nothing else. *)
Theorem score_grows_by_pickups_only (evs : list Event) : forall s : Scene,
  single_run evs s ->
  (score (scoring s) + 10 * pickups evs <= score (scoring (after evs s))
   <= score (scoring s) + 40 * pickups evs)%Z.
Proof.
  induction evs as [|e rest IH]; intros s Hrun.
  - cbn. lia.
  - destruct Hrun as [Hr Hrest].
    pose proof (score_step e s Hr) as H1.
    pose proof (IH (step e s) Hrest) as H2.
    rewrite pickups_cons.
    change (after (e :: rest) s) with (after rest (step e s)). lia.
Qed.

Lemma score_grows_by_pickups_only_witness :
  single_run fourPickups demoScene /\
  (score (scoring demoScene) + 10 * pickups fourPickups
   <= score (scoring (after fourPickups demoScene))
   <= score (scoring demoScene) + 40 * pickups fourPickups)%Z.
Proof.
  assert (H : single_run fourPickups demoScene) by (cbn; repeat split).
  split; [exact H|].
  exact (score_grows_by_pickups_only fourPickups demoScene H).
Defined.

(** X4. After the combo timer has fired, the next pickup of an active coin is
    the first of a new combo whatever the time since the last pickup: count
    1, multiplier 1, 10 points. *)
Theorem pickup_after_combo_expiry now pick p coin (s : Scene) :
  coin_active coin = true ->
  let s' := collectCoin now pick p coin (comboTimerCallback s) in
  comboCount (scoring s') = 1%Z /\
  scoreMultiplier (scoring s') = 1%Z /\
  score (scoring s') = (score (scoring s) + 10)%Z.
Proof.
  intros Hc.
  destruct (collectCoin_combo now pick p coin (comboTimerCallback s) Hc)
    as (Hcc & Hm & Hs & _).
  cbv zeta. rewrite Hcc, Hm, Hs.
  change (comboCount (scoring (comboTimerCallback s))) with 0%Z.
  change (score (scoring (comboTimerCallback s))) with (score (scoring s)).
  destruct (Qltb (now - lastCoinCollectTime (scoring (comboTimerCallback s)))
                 comboTimeWindow); repeat split.
Qed.

Lemma pickup_after_combo_expiry_witness :
  let coin := {| coin_active := true |} in
  let s := after fourPickups demoScene in
  coin_active coin = true /\
  comboCount (scoring (collectCoin 2600 speed (player s) coin
                         (comboTimerCallback s))) = 1%Z.
Proof.
  intros coin s. split; [reflexivity|].
  exact (proj1 (pickup_after_combo_expiry 2600 speed (player s) coin s
                  eq_refl)).
Defined.
(** ** The end of a run *)

Lemma timers_endGame (s : Scene) :
  gameOver s = false -> timers (endGame s) = timers (cleanupTimers s).
Proof.
  intros Hg. unfold endGame. rewrite Hg. split_ifs; reflexivity.
Qed.

Lemma powerUpActive_endGame (s : Scene) :
  gameOver s = false -> powerUpActive (powerUp (endGame s)) = false.
Proof.
  intros Hg. unfold endGame. rewrite Hg. cbn.
  destruct (powerUpActive (powerUp s)) eqn:Ha; [reflexivity | exact Ha].
Qed.

(** X6. A frame in which the character is below the bottom of the world (its
    [y] greater than the canvas height plus its own height) ends the run
    within that frame: every timer is cancelled, no power-up is left
    active, the score is kept, and the frames after it change nothing. *)
Theorem falling_out_ends_run time delta j d (s : Scene) :
  gameOver s = false ->
  0 <= player_height (player s) ->
  0 <= scale_height s ->
  scale_height s + player_height (player s) < player_y (player s) ->
  let s' := update time delta j d s in
  gameOver s' = true /\
  timers s' = timers (cleanupTimers s) /\
  powerUpActive (powerUp s') = false /\
  score (scoring s') = score (scoring s) /\
  (forall time' delta' j' d', update time' delta' j' d' s' = s').
Proof.
  intros Hg Hh HH Hy.
  destruct (movement_static delta j d s) as (My & Mh & Ms & Mg).
  set (m := movement delta j d s) in *.
  assert (Hvb : verticalBounds m = endGame m).
  { unfold verticalBounds.
    assert (H1 : Qltb (player_y (player m)) (- player_height (player m))
                 = false).
    { apply Qltb_ge. rewrite My, Mh. lra. }
    rewrite H1.
    assert (H2 : Qltb (scale_height m + player_height (player m))
                      (player_y (player m)) = true).
    { apply Qltb_lt. rewrite My, Mh, Ms. exact Hy. }
    rewrite H2. reflexivity. }
  assert (Hm : gameOver m = false) by (rewrite Mg; exact Hg).
  assert (Hu : update time delta j d s =
               increaseDifficulty (delta / 1000) (endGame m)).
  { unfold update. rewrite Hg. unfold finishTick. fold m. rewrite Hvb.
    reflexivity. }
  assert (Hover : gameOver (update time delta j d s) = true).
  { rewrite Hu. apply gameOver_endGame. }
  cbv zeta. split; [exact Hover|]. split.
  - rewrite Hu. unfold increaseDifficulty. cbn [timers set_timers upd_timers
      set_difficulty]. rewrite (timers_endGame m Hm). reflexivity.
  - split.
    + rewrite Hu. apply powerUpActive_endGame, Hm.
    + split.
      * rewrite scoring_update. reflexivity.
      * intros. unfold update at 1. rewrite Hover. reflexivity.
Qed.

Lemma falling_out_ends_run_witness :
  let s := set_player (airBody 700) demoScene in
  gameOver s = false /\
  scale_height s + player_height (player s) < player_y (player s) /\
  gameOver (update 16 16 false false s) = true.
Proof.
  intros s.
  assert (Hy : scale_height s + player_height (player s) < player_y (player s))
    by (vm_compute; reflexivity).
  split; [reflexivity|]. split; [exact Hy|].
  apply (falling_out_ends_run 16 16 false false s eq_refl).
  - vm_compute. discriminate.
  - vm_compute. discriminate.
  - exact Hy.
Defined.

(** X7. Once [endGame] has run, frames, hazard and pit contacts and the firing
    of the combo and power-up timers leave the scene exactly as it is. *)
Theorem finished_run_ignores_events (s : Scene) (evs : list Event) :
  gameOver s = false ->
  forallb quiet evs = true ->
  after evs (endGame s) = endGame s.
Proof.
  intros Hg. 
  assert (Hover : gameOver (endGame s) = true) by apply gameOver_endGame.
  assert (Ht : timers (endGame s) = timers (cleanupTimers s))
    by (apply timers_endGame, Hg).
  induction evs as [|e rest IH]; intros Hq; [reflexivity|].
  cbn [forallb] in Hq. apply andb_true_iff in Hq. destruct Hq as [He Hrest].
  change (after (e :: rest) (endGame s))
    with (after rest (step e (endGame s))).
  assert (Hstep : step e (endGame s) = endGame s).
  { destruct e; try discriminate He; cbn [step].
    - unfold update. rewrite Hover. reflexivity.
    - unfold enemyCollider, processCallback. rewrite Hover.
      rewrite andb_false_r. reflexivity.
    - unfold playerFellInPit. rewrite Hover. reflexivity.
    - rewrite Ht. reflexivity.
    - rewrite Ht. reflexivity. }
  rewrite Hstep. apply IH, Hrest.
Qed.

Lemma finished_run_ignores_events_witness :
  gameOver demoScene = false /\
  after [Update 16 16 true false; EnemyContact {| enemy_flying := true |};
         ComboTimerFires] (endGame demoScene) = endGame demoScene.
Proof.
  split; [reflexivity|].
  exact (finished_run_ignores_events demoScene
           [Update 16 16 true false; EnemyContact {| enemy_flying := true |};
            ComboTimerFires] eq_refl eq_refl).
Defined.

(** X8. The protection of a power-up lasts exactly until its duration timer
    fires: the contact after the timer's callback ends the run. *)
Theorem hazard_lethal_after_powerUp_expiry (s : Scene) (t : TimerEvent)
  (enemy : Enemy) :
  gameOver s = false ->
  powerUpTimer (timers s) = Some t ->
  let s1 := step PowerUpTimerFires s in
  powerUp s1 = noPowerUp /\
  powerUpTimer (timers s1) = None /\
  gameOver s1 = false /\
  gameOver (step (EnemyContact enemy) s1) = true.
Proof.
  intros Hg Ht. cbn [step]. rewrite Ht.
  assert (H1 : gameOver (endPowerUp s) = false) by exact Hg.
  repeat split; try exact Hg.
  apply enemyCollider_unprotected_ends_run; [exact H1 | reflexivity].
Qed.

Lemma hazard_lethal_after_powerUp_expiry_witness :
  gameOver shieldScene = false /\
  gameOver (step (EnemyContact {| enemy_flying := false |})
              (step PowerUpTimerFires shieldScene)) = true.
Proof.
  split; [reflexivity|].
  apply (hazard_lethal_after_powerUp_expiry shieldScene
           {| delay := powerUpDuration; loop := false |}
           {| enemy_flying := false |} eq_refl eq_refl).
Defined.

(** ** Jump rules *)

(** X9. A pointer press on a running scene is handled as a key press is by the
    jump logic of the tick, unless the character is grounded with a jump
    still buffered. *)
Theorem pointer_jump_is_keyboard_jump (fadeRunning : bool) (s : Scene) :
  gameOver s = false ->
  touching_down (player s) = false \/ jumpBufferCounter (jump s) <= 0 ->
  handleJumpInput fadeRunning s = jumpLogic (touching_down (player s)) true s.
Proof.
  intros Hg Hcase. unfold handleJumpInput, jumpLogic. rewrite Hg.
  assert (H : touching_down (player s) && Qltb 0 (jumpBufferCounter (jump s))
              = false).
  { destruct Hcase as [Ht | Hb].
    - rewrite Ht. reflexivity.
    - apply Qltb_ge in Hb. rewrite Hb. apply andb_false_r. }
  rewrite H. destruct (touching_down (player s)); cbn [orb negb andb];
    [reflexivity|].
  destruct (Qltb 0 (coyoteTimeCounter (jump s))); [reflexivity|].
  destruct (hasDoubleJumped (jump s)); reflexivity.
Qed.

Lemma pointer_jump_is_keyboard_jump_witness :
  gameOver airScene = false /\
  handleJumpInput false airScene = doubleJump airScene.
Proof.
  split; [reflexivity|].
  rewrite (pointer_jump_is_keyboard_jump false airScene eq_refl
             (or_introl eq_refl)).
  reflexivity.
Defined.

Lemma jump_ok_landingLogic (tg : bool) (delta : Q) (s : Scene) :
  0 <= delta -> jump_ok s -> jump_ok (landingLogic tg delta s).
Proof.
  intros Hd (Hb & Hc & Hi). unfold jump_ok, landingLogic, groundJump.
  unfold jumpBufferDuration, coyoteTimeDuration in *.
  destruct tg.
  - destruct (wasInAir (jump s)); cbn -[Qltb];
      destruct (Qltb 0 (jumpBufferCounter (jump s))) eqn:E; cbn; Qprops;
      (split; [lra|]); (split; [lra|]); intros H; exfalso; lra.
  - cbn. split; [lra|]. split; [lra|]. exact Hi.
Qed.

Lemma jump_ok_jumpLogic (tg j : bool) (s : Scene) :
  jump_ok s -> jump_ok (jumpLogic tg j s).
Proof.
  intros (Hb & Hc & Hi). unfold jump_ok, jumpLogic, groundJump, doubleJump.
  unfold jumpBufferDuration, coyoteTimeDuration in *.
  destruct j; [|repeat split; assumption].
  destruct tg; cbn -[Qltb].
  - split; [lra|]. split; [lra|]. intros H; exfalso; lra.
  - destruct (Qltb 0 (coyoteTimeCounter (jump s))); cbn -[Qltb].
    + split; [lra|]. split; [lra|]. intros H; exfalso; lra.
    + destruct (hasDoubleJumped (jump s)) eqn:Hdj; cbn.
      * split; [lra|]. split; [lra|]. intros _. exact Hdj.
      * split; [lra|]. split; [lra|]. intros H; exfalso; lra.
Qed.

Lemma jump_ok_bufferAndJumpDown (tg : bool) (delta : Q) (d : bool)
  (s : Scene) :
  0 <= delta -> jump_ok s -> jump_ok (bufferAndJumpDown tg delta d s).
Proof.
  intros Hd (Hb & Hc & Hi). unfold jump_ok, bufferAndJumpDown.
  destruct (Qltb 0 (jumpBufferCounter (jump s))) eqn:E; Qprops.
  - cbn. split; [lra|]. split; [exact Hc|]. intros _. apply Hi, E.
  - destruct (d && negb tg); cbn; repeat split; assumption.
Qed.

Lemma jump_ok_same (s s' : Scene) :
  jump s' = jump s -> jump_ok s -> jump_ok s'.
Proof. unfold jump_ok. intros ->. exact (fun H => H). Qed.

Lemma jump_ok_create (s : Scene) : jump_ok (create s).
Proof.
  assert (H : jump (create s) =
              {| hasDoubleJumped := false; jumpDownActive := false;
                 coyoteTimeCounter := 0; jumpBufferCounter := 0;
                 wasInAir := false |}).
  { unfold create. cbv zeta.
    match goal with
    | |- context [match data ?x with Some _ => _ | None => _ end] =>
        destruct (data x)
    end; reflexivity. }
  unfold jump_ok. rewrite H. cbn.
  unfold jumpBufferDuration, coyoteTimeDuration.
  split; [lra|]. split; [lra|]. intros Hlt. exfalso. lra.
Qed.

Lemma jump_ok_step (e : Event) (s : Scene) :
  delta_nonneg e -> jump_ok s -> jump_ok (step e s).
Proof.
  intros Hd H. destruct e; cbn [step].
  - exact H.
  - cbn in Hd. unfold update. destruct (gameOver s); [exact H|].
    apply (jump_ok_same (movement delta jumpKey downKey s)).
    + apply jump_finishTick.
    + unfold movement, jumpPhase.
      apply jump_ok_bufferAndJumpDown; [exact Hd|].
      apply jump_ok_jumpLogic, jump_ok_landingLogic; assumption.
  - unfold handleJumpInput, restartGame. destruct (gameOver s) eqn:Hg.
    + destruct (negb true || fadeRunning); [exact H | apply jump_ok_create].
    + destruct (touching_down (player s) &&
                Qltb 0 (jumpBufferCounter (jump s))) eqn:E.
      * unfold jump_ok. cbn.
        unfold jumpBufferDuration, coyoteTimeDuration.
        split; [lra|]. split; [lra|]. intros Hlt. exfalso. lra.
      * pose proof (jump_ok_jumpLogic (touching_down (player s)) true s H)
          as HJ.
        unfold jumpLogic in HJ. cbn [negb andb] in *.
        rewrite andb_true_r. exact HJ.
  - unfold restartGame.
    destruct (negb (gameOver s) || fadeRunning);
      [exact H | apply jump_ok_create].
  - eapply jump_ok_same; [|exact H].
    unfold collectCoin, countTowardsPowerUp, awardScore, comboSystem,
      triggerPowerUp.
    split_ifs; reflexivity.
  - eapply jump_ok_same; [|exact H].
    unfold enemyCollider, hitEnemy, endGame. split_ifs; reflexivity.
  - eapply jump_ok_same; [|exact H].
    unfold playerFellInPit, endGame. split_ifs; reflexivity.
  - destruct (comboTimer (timers s)); exact H.
  - destruct (powerUpTimer (timers s)); exact H.
Qed.

(** X10. In every state of every trace that starts at [create], restarts
    included, with frame deltas that are elapsed times: the jump buffer and
    the coyote counter never exceed their 100 ms, and the jump buffer is
    positive only while the double jump is spent. *)
Theorem grace_counters_bounded (evs : list Event) (s0 : Scene) :
  Forall delta_nonneg evs ->
  Forall jump_ok (run evs (create s0)).
Proof.
  assert (G : forall s, Forall delta_nonneg evs -> jump_ok s ->
                        Forall jump_ok (run evs s)).
  { induction evs as [|e rest IH]; intros s Hnn H; cbn [run];
      constructor; inversion Hnn; subst.
    - apply jump_ok_step; assumption.
    - apply IH; [assumption|]. apply jump_ok_step; assumption. }
  intros Hnn. apply G; [exact Hnn | apply jump_ok_create].
Qed.

Lemma grace_counters_bounded_witness :
  Forall delta_nonneg demoTrace /\
  Forall jump_ok (run demoTrace (create (constructed 600 48))).
Proof.
  assert (H : Forall delta_nonneg demoTrace).
  { unfold demoTrace. repeat constructor; cbn; discriminate. }
  split; [exact H|].
  exact (grace_counters_bounded demoTrace (constructed 600 48) H).
Defined.

(** *** Coyote time *)

(** A grounded frame without a jump press and without a buffered jump
    opens the coyote window and gives the double jump back. *)
Lemma grounded_frame (f : Frame) (s : Scene) :
  gameOver s = false ->
  jumpBufferCounter (jump s) <= 0 ->
  touching_down (f_body f) = true -> f_jump f = false ->
  in_world (scale_height s) (f_body f) ->
  gameOver (frame f s) = false /\
  scale_height (frame f s) = scale_height s /\
  coyoteTimeCounter (jump (frame f s)) = coyoteTimeDuration /\
  hasDoubleJumped (jump (frame f s)) = false /\
  count_fx JumpDust (fx (frame f s)) = count_fx JumpDust (fx s).
Proof.
  intros Hg Hb Ht Hj Hw. rewrite (frame_movement f s Hg Hw).
  apply Qltb_ge in Hb.
  unfold movement, jumpPhase, landingLogic, jumpLogic, bufferAndJumpDown.
  cbn [player set_player]. rewrite Ht, Hj.
  destruct (wasInAir (jump (set_player (f_body f) s)));
    cbn -[Qltb]; rewrite Hb; cbn -[Qltb]; rewrite Hb;
    rewrite ?andb_false_r; cbn; repeat split; assumption.
Qed.

(** An airborne frame without a jump press: the coyote counter loses the
    frame's delta; no jump runs. *)
Lemma coyote_coasting_frame (f : Frame) (s : Scene) :
  gameOver s = false ->
  coasting f ->
  in_world (scale_height s) (f_body f) ->
  gameOver (frame f s) = false /\
  scale_height (frame f s) = scale_height s /\
  coyoteTimeCounter (jump (frame f s)) =
    coyoteTimeCounter (jump s) - f_delta f /\
  hasDoubleJumped (jump (frame f s)) = hasDoubleJumped (jump s) /\
  count_fx JumpDust (fx (frame f s)) = count_fx JumpDust (fx s).
Proof.
  intros Hg (Ht & Hj) Hw. rewrite (frame_movement f s Hg Hw).
  unfold movement, jumpPhase, landingLogic, jumpLogic, bufferAndJumpDown.
  cbn [player set_player]. rewrite Ht, Hj. cbn -[Qltb Qminus].
  destruct (Qltb 0 (jumpBufferCounter (jump s)));
    [|destruct (f_down f)]; cbn -[Qminus]; repeat split; assumption.
Qed.

Lemma coyote_coasting_frames (fs : list Frame) : forall s : Scene,
  gameOver s = false ->
  Forall coasting fs ->
  Forall (sane_frame (scale_height s)) fs ->
  gameOver (frames fs s) = false /\
  scale_height (frames fs s) = scale_height s /\
  coyoteTimeCounter (jump (frames fs s)) ==
    coyoteTimeCounter (jump s) - sum_delta fs /\
  hasDoubleJumped (jump (frames fs s)) = hasDoubleJumped (jump s) /\
  count_fx JumpDust (fx (frames fs s)) = count_fx JumpDust (fx s).
Proof.
  induction fs as [|f rest IH]; intros s Hg Hco Hsane.
  - change (frames [] s) with s. change (sum_delta []) with 0.
    repeat split; try assumption. lra.
  - inversion Hco as [|? ? Hf Hrest]; subst.
    inversion Hsane as [|? ? [Hd Hw] Hsrest]; subst.
    destruct (coyote_coasting_frame f s Hg Hf Hw) as (Hg1 & Hh1 & Hc1 & Hd1 & Hx1).
    change (frames (f :: rest) s) with (frames rest (frame f s)).
    destruct (IH (frame f s) Hg1 Hrest) as (Hg2 & Hh2 & Hc2 & Hd2 & Hx2).
    { rewrite Hh1. exact Hsrest. }
    rewrite sum_delta_cons.
    split; [exact Hg2|]. split; [congruence|].
    split; [rewrite Hc2, Hc1; lra|]. split; congruence.
Qed.

(** The press while the coyote window is open: a ground jump. *)
Lemma coyote_press_frame (f : Frame) (s : Scene) :
  gameOver s = false ->
  touching_down (f_body f) = false -> f_jump f = true -> f_down f = false ->
  in_world (scale_height s) (f_body f) ->
  f_delta f < coyoteTimeCounter (jump s) ->
  velocityY (player (frame f s)) = -575 /\
  coyoteTimeCounter (jump (frame f s)) = 0 /\
  hasDoubleJumped (jump (frame f s)) = hasDoubleJumped (jump s) /\
  count_fx JumpDust (fx (frame f s)) = S (count_fx JumpDust (fx s)) /\
  count_fx DoubleJumpBurst (fx (frame f s)) =
    count_fx DoubleJumpBurst (fx s).
Proof.
  intros Hg Ht Hj Hdn Hw Hc. rewrite (frame_movement f s Hg Hw).
  assert (Hcoy : Qltb 0 (coyoteTimeCounter (jump s) - f_delta f) = true).
  { apply Qltb_lt. lra. }
  unfold movement, jumpPhase, landingLogic, jumpLogic, bufferAndJumpDown.
  cbn [player set_player]. rewrite Ht, Hj, Hdn.
  cbn -[Qltb Qminus]. rewrite Hcoy. cbn -[Qltb].
  replace (Qltb 0 0) with false by reflexivity.
  repeat split.
Qed.

(** X11. Coyote time. The character stands on the ground (no jump pressed, none
    buffered), leaves it, and jump is pressed in a later airborne frame:
    if the deltas of the airborne frames up to and including the press
    frame sum to less than 100 ms, the press runs the ground jump (velocity
    -575, one jump burst) and not the double jump, which stays available.
    Fast-fall is not pressed in the press frame. *)
Theorem coyote_jump_is_ground_jump (s : Scene) (ground : Frame)
  (air : list Frame) (press : Frame) :
  gameOver s = false ->
  jumpBufferCounter (jump s) <= 0 ->
  touching_down (f_body ground) = true -> f_jump ground = false ->
  Forall coasting air ->
  touching_down (f_body press) = false ->
  f_jump press = true -> f_down press = false ->
  Forall (sane_frame (scale_height s)) (ground :: air ++ [press]) ->
  sum_delta air + f_delta press < coyoteTimeDuration ->
  let s0 := frames (ground :: air) s in
  let s' := frame press s0 in
  velocityY (player s') = -575 /\
  hasDoubleJumped (jump s') = false /\
  count_fx JumpDust (fx s') = S (count_fx JumpDust (fx s)) /\
  count_fx DoubleJumpBurst (fx s') = count_fx DoubleJumpBurst (fx s0).
Proof.
  intros Hg Hb Htg Hjg Hco Htp Hjp Hdp Hsane Hsum.
  inversion Hsane as [|? ? [_ Hwg] Hrest]; subst.
  apply Forall_app in Hrest. destruct Hrest as [Hsair Hspress].
  inversion Hspress as [|? ? [_ Hwp] _]; subst.
  destruct (grounded_frame ground s Hg Hb Htg Hjg Hwg)
    as (Hg1 & Hh1 & Hc1 & Hd1 & Hx1).
  change (frames (ground :: air) s) with (frames air (frame ground s)).
  destruct (coyote_coasting_frames air (frame ground s) Hg1 Hco)
    as (Hg2 & Hh2 & Hc2 & Hd2 & Hx2).
  { rewrite Hh1. exact Hsair. }
  set (s0 := frames air (frame ground s)) in *.
  assert (Hw0 : in_world (scale_height s0) (f_body press)).
  { rewrite Hh2, Hh1. exact Hwp. }
  assert (Hlt : f_delta press < coyoteTimeCounter (jump s0)).
  { rewrite Hc2, Hc1. lra. }
  destruct (coyote_press_frame press s0 Hg2 Htp Hjp Hdp Hw0 Hlt)
    as (Hv & _ & Hd3 & Hx3 & Hx4).
  cbv zeta. split; [exact Hv|]. split; [congruence|].
  split; [congruence | exact Hx4].
Qed.

Lemma coyote_jump_is_ground_jump_witness :
  let ground := {| f_body := groundBody; f_time := 16; f_delta := 16;
                   f_jump := false; f_down := false |} in
  let air := [coastFrame 32 16; coastFrame 48 16] in
  let press := pressFrame 64 16 in
  sum_delta air + f_delta press < coyoteTimeDuration /\
  velocityY (player (frame press (frames (ground :: air) demoScene))) = -575.
Proof.
  intros ground air press.
  assert (Hsum : sum_delta air + f_delta press < coyoteTimeDuration)
    by (vm_compute; reflexivity).
  assert (Hsane : Forall (sane_frame (scale_height demoScene))
                         (ground :: air ++ [press])).
  { repeat constructor; vm_compute; discriminate. }
  assert (Hb : jumpBufferCounter (jump demoScene) <= 0)
    by (vm_compute; discriminate).
  assert (Hco : Forall coasting air) by (repeat constructor).
  split; [exact Hsum|].
  exact (proj1 (coyote_jump_is_ground_jump demoScene ground air press
                  eq_refl Hb eq_refl eq_refl Hco eq_refl eq_refl eq_refl
                  Hsane Hsum)).
Defined.

(** *** The double jump is spent *)

Lemma spent_airborne_frame (f : Frame) (s : Scene) :
  spent_airborne s ->
  airborne f ->
  sane_frame (scale_height s) f ->
  spent_airborne (frame f s) /\
  scale_height (frame f s) = scale_height s /\
  fx (frame f s) = fx s.
Proof.
  intros (Hg & Hdj & Hc) Ht (Hd & Hw). unfold airborne in Ht.
  rewrite (frame_movement f s Hg Hw).
  assert (Hcoy : Qltb 0 (coyoteTimeCounter (jump s) - f_delta f) = false).
  { apply Qltb_ge. lra. }
  unfold spent_airborne, movement, jumpPhase, landingLogic, jumpLogic,
    bufferAndJumpDown.
  cbn [player set_player]. rewrite Ht.
  destruct (f_jump f); cbn -[Qltb Qminus jumpBufferDuration];
    rewrite ?Hcoy, ?Hdj; cbn -[Qltb Qminus jumpBufferDuration].
  - replace (Qltb 0 jumpBufferDuration) with true by reflexivity.
    cbn -[Qminus]. repeat split; try assumption. lra.
  - destruct (Qltb 0 (jumpBufferCounter (jump s)));
      [|destruct (f_down f)]; cbn -[Qminus]; repeat split;
      try assumption; lra.
Qed.

(** X12. With the double jump spent and the coyote window closed, nothing the
    player presses while airborne jumps: over any airborne frames, with
    any keys, no jump burst of either kind is emitted and the double jump
    stays spent. *)
Theorem no_third_jump_in_the_air (fs : list Frame) : forall s : Scene,
  spent_airborne s ->
  Forall airborne fs ->
  Forall (sane_frame (scale_height s)) fs ->
  spent_airborne (frames fs s) /\
  count_fx JumpDust (fx (frames fs s)) = count_fx JumpDust (fx s) /\
  count_fx DoubleJumpBurst (fx (frames fs s)) =
    count_fx DoubleJumpBurst (fx s).
Proof.
  assert (G : forall s, spent_airborne s -> Forall airborne fs ->
                Forall (sane_frame (scale_height s)) fs ->
                spent_airborne (frames fs s) /\ fx (frames fs s) = fx s).
  { induction fs as [|f rest IH]; intros s Hs Ha Hsane.
    - split; [exact Hs | reflexivity].
    - inversion Ha as [|? ? Hf Hrest]; subst.
      inversion Hsane as [|? ? Hsf Hsrest]; subst.
      destruct (spent_airborne_frame f s Hs Hf Hsf) as (Hs1 & Hh1 & Hx1).
      change (frames (f :: rest) s) with (frames rest (frame f s)).
      destruct (IH (frame f s) Hs1 Hrest) as (Hs2 & Hx2).
      { rewrite Hh1. exact Hsrest. }
      split; [exact Hs2 | congruence]. }
  intros s Hs Ha Hsane. destruct (G s Hs Ha Hsane) as (H1 & H2).
  rewrite H2. repeat split; apply H1.
Qed.

Lemma no_third_jump_in_the_air_witness :
  let fs := [pressFrame 232 16; coastFrame 248 16; pressFrame 264 16] in
  spent_airborne spentScene /\
  count_fx DoubleJumpBurst (fx (frames fs spentScene)) =
    count_fx DoubleJumpBurst (fx spentScene).
Proof.
  intros fs.
  assert (Ha : Forall airborne fs) by (repeat constructor).
  assert (Hsane : Forall (sane_frame (scale_height spentScene)) fs).
  { repeat constructor; vm_compute; discriminate. }
  split; [exact spentScene_spent|].
  exact (proj2 (proj2 (no_third_jump_in_the_air fs spentScene
                         spentScene_spent Ha Hsane))).
Defined.


(** ** The world speed *)

Lemma difficulty_ok_step (e : Event) (s : Scene) :
  delta_nonneg e -> difficulty_ok s -> difficulty_ok (step e s).
Proof.
  intros Hd H.
  destruct (restarts e s) eqn:Hr.
  - assert (Hs : step e s = create (set_data (Some (playerScale (cleanupTimers s)))
                                      (cleanupTimers s))).
    { destruct e; try discriminate Hr; cbn in Hr;
        apply andb_true_iff in Hr; destruct Hr as [Hg Hf];
        apply negb_true_iff in Hf; subst; cbn [step];
        unfold handleJumpInput, restartGame; rewrite Hg; reflexivity. }
    rewrite Hs. unfold difficulty_ok. rewrite difficulty_create. cbn.
    unfold baseScrollSpeed, maxScrollSpeed, minSpawnDelay, baseSpawnDelay.
    repeat split; lra.
  - destruct (step_difficulty e s Hr)
      as [Heq | (time & delta & j & d & -> & _ & Heq)];
      unfold difficulty_ok; rewrite Heq; [exact H|].
    cbn in Hd. destruct H as (H1 & H2 & H3 & H4).
    pose proof (increaseDifficulty_ramp (delta / 1000) s
                  (Qdiv1000_nonneg delta Hd) H2 H3) as Hramp.
    cbn [ramp_ok] in Hramp. destruct Hramp as (R1 & R2 & R3 & R4 & _).
    repeat split; try assumption; lra.
Qed.

(** X13. In every state of every trace that starts at [create], restarts
    included, with frame deltas that are elapsed times: the scroll speed
    is between 250 and 750, the spawn delay between 400 and 1700, and the
    speed the world moves at, boost included, between 250 and 1200. *)
Theorem world_speed_in_range (evs : list Event) (s0 : Scene) :
  Forall delta_nonneg evs ->
  Forall (fun s => difficulty_ok s /\
                   250 <= currentScrollSpeed s /\ currentScrollSpeed s <= 1200)
         (run evs (create s0)).
Proof.
  assert (G : forall s, Forall delta_nonneg evs -> difficulty_ok s ->
                        Forall difficulty_ok (run evs s)).
  { induction evs as [|e rest IH]; intros s Hnn H; cbn [run];
      constructor; inversion Hnn; subst.
    - apply difficulty_ok_step; assumption.
    - apply IH; [assumption|]. apply difficulty_ok_step; assumption. }
  intros Hnn.
  assert (H0 : difficulty_ok (create s0)).
  { unfold difficulty_ok. rewrite difficulty_create. cbn.
    unfold baseScrollSpeed, maxScrollSpeed, minSpawnDelay, baseSpawnDelay.
    repeat split; lra. }
  eapply Forall_impl; [|exact (G (create s0) Hnn H0)].
  intros s (H1 & H2 & H3 & H4). split; [repeat split; assumption|].
  unfold currentScrollSpeed, powerUpSpeedBoost, baseScrollSpeed,
    maxScrollSpeed in *.
  destruct (powerUpActive (powerUp s)); split; lra.
Qed.

Lemma world_speed_in_range_witness :
  Forall delta_nonneg demoTrace /\
  Forall (fun s => difficulty_ok s /\
                   250 <= currentScrollSpeed s /\ currentScrollSpeed s <= 1200)
         (run demoTrace (create (constructed 600 48))).
Proof.
  assert (H : Forall delta_nonneg demoTrace).
  { unfold demoTrace. repeat constructor; cbn; discriminate. }
  split; [exact H|].
  exact (world_speed_in_range demoTrace (constructed 600 48) H).
Defined.

(** ** Moving and despawning entities *)

Lemma despawnOffscreenObjects_length (group : list Child) :
  length (despawnOffscreenObjects group) = length group.
Proof. apply length_map. Qed.

Lemma despawn_child_cases (c : Child) :
  let c' := if child_active c && Qltb (bounds_right c) 0
            then despawn c else c in
  (child_active c' = true -> c' = c /\ 0 <= bounds_right c) /\
  (child_active c = false \/ 0 <= bounds_right c -> c' = c) /\
  (if child_active c' && Qltb (bounds_right c') 0 then despawn c' else c') = c'.
Proof.
  cbv zeta. destruct (child_active c) eqn:Ha; cbn [andb].
  - destruct (Qltb (bounds_right c) 0) eqn:E.
    + cbn. split; [discriminate|]. split; [|reflexivity].
      intros [H|H]; [discriminate|]. apply Qltb_lt in E. exfalso. lra.
    + rewrite Ha, E. cbn. apply Qltb_ge in E. repeat split; assumption.
  - rewrite Ha. cbn. split; [discriminate|]. split; reflexivity.
Qed.

(** X15. The sweep of a group: the pool keeps its size; no child that is still
    active lies off the left edge; children that were pooled or on screen
    are untouched; the number of active children does not grow; sweeping
    twice is sweeping once. *)
Theorem despawn_sweeps_left_edge (group : list Child) :
  let group' := despawnOffscreenObjects group in
  length group' = length group /\
  Forall (fun c => child_active c = true -> 0 <= bounds_right c) group' /\
  Forall2 (fun c c' => (child_active c = false \/ 0 <= bounds_right c ->
                        c' = c) /\
                       (child_active c = true -> bounds_right c < 0 ->
                        c' = despawn c)) group group' /\
  (count_active group' <= count_active group)%nat /\
  despawnOffscreenObjects group' = group'.
Proof.
  cbv zeta. split; [apply despawnOffscreenObjects_length|].
  induction group as [|c rest IH]; cbn [despawnOffscreenObjects map].
  - repeat split; constructor.
  - destruct IH as (IH1 & IH2 & IH3 & IH4).
    fold (despawnOffscreenObjects rest) in *.
    destruct (despawn_child_cases c) as (C1 & C2 & C3). cbv zeta in *.
    set (c' := if child_active c && Qltb (bounds_right c) 0
               then despawn c else c) in *.
    split; [constructor; [intros Ha; rewrite (proj1 (C1 Ha)) at 1;
                          apply C1, Ha | exact IH1]|].
    split.
    { constructor; [|exact IH2]. split; [exact C2|].
      intros Ha Hlt. unfold c'. rewrite Ha.
      apply Qltb_lt in Hlt. rewrite Hlt. reflexivity. }
    split.
    { unfold count_active in *. cbn [filter].
      destruct (child_active c') eqn:Ha'.
      - destruct (C1 eq_refl) as [Heq _]. rewrite <- Heq, Ha'.
        cbn [length]. lia.
      - destruct (child_active c); cbn [length]; lia. }
    change (despawnOffscreenObjects (c' :: despawnOffscreenObjects rest))
      with ((if child_active c' && Qltb (bounds_right c') 0
             then despawn c' else c')
            :: despawnOffscreenObjects (despawnOffscreenObjects rest)).
    rewrite C3. f_equal. exact IH4.
Qed.

(** X16. The groups during a tick of a running scene whose scroll speed is in
    range, for an elapsed-time delta: every entity relates to what it was
    by [scrolled], with at most 1.2 pixels per millisecond of delta; after
    game over the groups stay as they are. *)
Theorem world_scrolls_left (delta : Q) (s : Scene) (w : World) :
  0 <= delta -> difficulty_ok s ->
  let w' := updateWorld delta s w in
  (gameOver s = true -> w' = w) /\
  (gameOver s = false ->
   Forall2 (scrolled (1.2 * delta)) (coins w) (coins w') /\
   Forall2 (scrolled (1.2 * delta)) (enemies w) (enemies w') /\
   Forall2 (scrolled (1.2 * delta)) (flyingEnemies w) (flyingEnemies w') /\
   Forall2 (scrolled (1.2 * delta)) (gapGroup w) (gapGroup w')).
Proof.
  intros Hd (H1 & H2 & _ & _). cbv zeta. unfold updateWorld.
  destruct (gameOver s); split; try discriminate; try reflexivity.
  intros _. cbn [coins enemies flyingEnemies gapGroup].
  set (disp := - currentScrollSpeed s * (delta / 1000)).
  assert (Hdisp : disp <= 0 /\ - disp <= 1.2 * delta).
  { unfold disp, currentScrollSpeed, powerUpSpeedBoost, baseScrollSpeed,
      maxScrollSpeed in *.
    pose proof (Qdiv1000_nonneg delta Hd) as Hds.
    assert (Hdiv : delta / 1000 == delta * (1 # 1000)) by reflexivity.
    rewrite Hdiv in *.
    destruct (powerUpActive (powerUp s)); split; nra. }
  clearbody disp. destruct Hdisp as [Hle Hlim].
  assert (G : forall g,
            Forall2 (scrolled (1.2 * delta)) g
              (despawnOffscreenObjects (moveGroupChildren g disp))).
  { induction g as [|c rest IH]; cbn [moveGroupChildren map
      despawnOffscreenObjects]; constructor; [|exact IH].
    destruct (child_active c) eqn:Ha.
    - set (m := set_child_x (child_x c + disp) c).
      destruct (despawn_child_cases m) as (C1 & _ & _). cbv zeta in C1.
      assert (Hx : forall c', c' = m \/ c' = despawn m ->
                              child_x c' = child_x c + disp).
      { intros c' [-> | ->]; reflexivity. }
      set (c' := if child_active m && Qltb (bounds_right m) 0
                 then despawn m else m) in *.
      assert (Hc' : c' = m \/ c' = despawn m).
      { unfold c'. destruct (child_active m && Qltb (bounds_right m) 0);
          [right | left]; reflexivity. }
      unfold scrolled. rewrite (Hx c' Hc').
      split; [lra|]. split; [lra|]. split; [intros Hf; congruence|].
      intros Ha'. split; [exact Ha|].
      destruct (C1 Ha') as [Heq Hb]. rewrite Heq. exact Hb.
    - rewrite Ha. cbn [andb]. unfold scrolled.
      split; [lra|]. split; [nra|]. split; [reflexivity|].
      intros Ha'. congruence. }
  repeat split; apply G.
Qed.

Lemma world_scrolls_left_witness :
  let w := {| coins := []; enemies := []; flyingEnemies := [];
              gapGroup := [pitAt 100 true; pitAt (-70) true] |} in
  0 <= 16 /\ difficulty_ok demoScene /\
  Forall2 (scrolled (1.2 * 16)) (gapGroup w)
          (gapGroup (updateWorld 16 demoScene w)).
Proof.
  intros w.
  assert (Hd : 0 <= 16) by (vm_compute; discriminate).
  assert (Hok : difficulty_ok demoScene).
  { repeat split; vm_compute; discriminate. }
  split; [exact Hd|]. split; [exact Hok|].
  destruct (world_scrolls_left 16 demoScene w Hd Hok) as [_ H].
  exact (proj2 (proj2 (proj2 (H eq_refl)))).
Defined.

(** ** Spawning pits from the pool *)

Lemma reuseInactive_none (f : Child -> Child) (group : list Child) :
  reuseInactive f group = None <-> count_active group = length group.
Proof.
  unfold count_active. induction group as [|c rest IH]; cbn.
  - split; reflexivity.
  - destruct (child_active c) eqn:Ha; cbn [length].
    + destruct (reuseInactive f rest).
      * split; [discriminate|]. intros H.
        assert (Hn : Some l = None) by (apply IH; lia). discriminate Hn.
      * split; [intros _; f_equal; apply IH; reflexivity | reflexivity].
    + split; [discriminate|]. intros H.
      pose proof (filter_length_le child_active rest). lia.
Qed.

Lemma reuseInactive_some (f : Child -> Child) (group group' : list Child) :
  (forall c, child_active (f c) = true) ->
  reuseInactive f group = Some group' ->
  length group' = length group /\
  count_active group' = S (count_active group) /\
  exists before c rest,
    group = before ++ c :: rest /\ group' = before ++ f c :: rest /\
    child_active c = false /\ Forall (fun b => child_active b = true) before.
Proof.
  intros Hf. unfold count_active.
  revert group'. induction group as [|c rest IH]; intros group' H; cbn in H.
  - discriminate.
  - destruct (child_active c) eqn:Ha.
    + destruct (reuseInactive f rest) as [rest'|]; [|discriminate].
      injection H as <-.
      destruct (IH rest' eq_refl) as (L & C & before & c0 & tl & E1 & E2 & A & F).
      cbn. rewrite Ha. cbn. split; [lia|]. split; [lia|].
      exists (c :: before), c0, tl. subst. repeat split; try assumption.
      constructor; assumption.
    + injection H as <-. cbn. rewrite Ha, Hf. cbn.
      split; [reflexivity|]. split; [reflexivity|].
      exists [], c, rest.
      split; [reflexivity|]. split; [reflexivity|].
      split; [exact Ha | constructor].
Qed.

Lemma placePit_active x y w (c : Child) : child_active (placePit x y w c) = true.
Proof. reflexivity. Qed.

Lemma reuseInactive_first (f : Child -> Child) (before : list Child)
  (c : Child) (rest : list Child) :
  Forall (fun b => child_active b = true) before ->
  child_active c = false ->
  reuseInactive f (before ++ c :: rest) = Some (before ++ f c :: rest).
Proof.
  intros Hb Hc. induction Hb as [|b before Hbt _ IH]; cbn.
  - rewrite Hc. reflexivity.
  - rewrite Hbt, IH. reflexivity.
Qed.

(** [spawnPit] in a run, by the state of the pool: the number of active
    pits and the length of the group. *)
Lemma spawnPit_counts (width pitWidth : Q) (s : Scene) (group : list Child) :
  gameOver s = false ->
  let group' := spawnPit width pitWidth s group in
  count_active group' = S (count_active group) /\
  ((count_active group < length group)%nat -> length group' = length group) /\
  (count_active group = length group -> length group' = S (length group)).
Proof.
  intros Hg. cbv zeta. unfold spawnPit. rewrite Hg. cbv zeta. unfold getAnd.
  set (f := placePit (width + pitWidth / 2 + 20) (scale_height s * 0.9 + 10)
                     pitWidth).
  destruct (reuseInactive f group) as [group'|] eqn:E.
  - destruct (reuseInactive_some f group group' (placePit_active _ _ _) E)
      as (L & C & _).
    split; [exact C|]. split; [intros _; exact L|].
    intros Hall. apply (reuseInactive_none f) in Hall. congruence.
  - apply reuseInactive_none in E.
    unfold count_active in *. rewrite filter_app, !length_app. cbn.
    split; [lia|]. split; lia.
Qed.

(** X17. [spawnPit] and the pool: after game over nothing is spawned.  In a
    run exactly one more pit is active, and the pit that is placed is the
    first inactive one of the group, in its slot: if the group is an
    all-active prefix, an inactive pit and a rest, the result is the same
    prefix, that pit placed, and the same rest, so that the group keeps
    its length; such a pit exists whenever not every pit is active.  When
    every pit is active a fresh sprite is placed and added at the end, and
    the group grows by one. *)
Theorem spawnPit_reuses_pool (width pitWidth : Q) (s : Scene)
  (group : list Child) :
  let group' := spawnPit width pitWidth s group in
  let spawnX := width + pitWidth / 2 + 20 in
  let spawnY := scale_height s * 0.9 + 10 in
  let place := placePit spawnX spawnY pitWidth in
  (gameOver s = true -> group' = group) /\
  (gameOver s = false ->
   count_active group' = S (count_active group) /\
   (forall before c rest,
      group = before ++ c :: rest ->
      Forall (fun b => child_active b = true) before ->
      child_active c = false ->
      group' = before ++ place c :: rest) /\
   ((count_active group < length group)%nat ->
    length group' = length group /\
    exists before c rest,
      group = before ++ c :: rest /\
      Forall (fun b => child_active b = true) before /\
      child_active c = false /\
      group' = before ++ place c :: rest) /\
   (count_active group = length group ->
    length group' = S (length group) /\
    group' = group ++ [place (freshSprite spawnX spawnY 128)])).
Proof.
  cbv zeta. split.
  - intros Hg. unfold spawnPit. rewrite Hg. reflexivity.
  - intros Hg.
    destruct (spawnPit_counts width pitWidth s group Hg) as (C & L1 & L2).
    cbv zeta in C, L1, L2.
    split; [exact C|].
    unfold spawnPit in *. rewrite Hg in *. cbv zeta in *. unfold getAnd in *.
    set (f := placePit (width + pitWidth / 2 + 20) (scale_height s * 0.9 + 10)
                       pitWidth) in *.
    split; [|split].
    + intros before c rest -> Hb Hc.
      rewrite (reuseInactive_first f before c rest Hb Hc). reflexivity.
    + intros Hlt. split; [exact (L1 Hlt)|].
      destruct (reuseInactive f group) as [group'|] eqn:E.
      * destruct (reuseInactive_some f group group' (placePit_active _ _ _) E)
          as (_ & _ & before & c & rest & E1 & E2 & A & F).
        exists before, c, rest. repeat split; assumption.
      * apply reuseInactive_none in E. lia.
    + intros Hall. split; [exact (L2 Hall)|].
      apply (reuseInactive_none f) in Hall. rewrite Hall. reflexivity.
Qed.

Lemma spawnPit_reuses_pool_witness :
  let group := [pitAt 300 true; pitAt (-80) false; pitAt (-90) false] in
  gameOver demoScene = false /\
  spawnPit 800 120 demoScene group =
  [pitAt 300 true;
   placePit (800 + 120 / 2 + 20) (scale_height demoScene * 0.9 + 10) 120
            (pitAt (-80) false);
   pitAt (-90) false].
Proof.
  intros group. split; [reflexivity|].
  assert (Hb : Forall (fun b => child_active b = true) [pitAt 300 true]).
  { constructor; [reflexivity | constructor]. }
  destruct (spawnPit_reuses_pool 800 120 demoScene group) as [_ G].
  destruct (G eq_refl) as (_ & Hfirst & _).
  exact (Hfirst [pitAt 300 true] (pitAt (-80) false) [pitAt (-90) false]
           eq_refl Hb eq_refl).
Defined.

(** X18. Where the pit appears: in a run, for a width that is not negative,
    the group holds after [spawnPit] an active, visible pit with an
    enabled body whose left edge is 20 pixels beyond the right edge of the
    screen and whose width is the drawn width, 10 pixels below the ground
    line; every pit that was active is still in the group. *)
Theorem spawnPit_places_offscreen (width pitWidth : Q) (s : Scene)
  (group : list Child) :
  gameOver s = false -> 0 <= pitWidth ->
  let group' := spawnPit width pitWidth s group in
  (exists pit, In pit group' /\
     child_active pit = true /\ child_visible pit = true /\
     (exists b, child_body pit = Some b /\ enable b = true) /\
     bounds_left pit == width + 20 /\
     bounds_right pit == width + 20 + pitWidth /\
     child_y pit = scale_height s * 0.9 + 10) /\
  (forall c, In c group -> child_active c = true -> In c group').
Proof.
  intros Hg Hw. cbv zeta. unfold spawnPit. rewrite Hg. cbv zeta.
  unfold getAnd.
  set (f := placePit (width + pitWidth / 2 + 20) (scale_height s * 0.9 + 10)
                     pitWidth).
  assert (Hpit : forall c,
            child_active (f c) = true /\ child_visible (f c) = true /\
            (exists b, child_body (f c) = Some b /\ enable b = true) /\
            bounds_left (f c) == width + 20 /\
            bounds_right (f c) == width + 20 + pitWidth /\
            child_y (f c) = scale_height s * 0.9 + 10).
  { intros c. split; [reflexivity|]. split; [reflexivity|]. split.
    - unfold f, placePit. cbn. destruct (child_body c); eexists; split;
        reflexivity.
    - assert (Hhalf : pitWidth / 2 == pitWidth * (1 # 2)) by reflexivity.
      split; [|split; [|reflexivity]].
      + unfold bounds_left, f, placePit. cbn -[Qmin Qdiv].
        rewrite Q.min_l; rewrite ?Hhalf; lra.
      + unfold bounds_right, f, placePit. cbn -[Qmax Qdiv].
        rewrite Q.max_r; rewrite ?Hhalf; lra. }
  destruct (reuseInactive f group) as [group'|] eqn:E.
  - destruct (reuseInactive_some f group group' (placePit_active _ _ _) E)
      as (_ & _ & before & c0 & rest & E1 & E2 & A & _).
    subst. split.
    + exists (f c0). split; [apply in_or_app; right; left; reflexivity|].
      apply Hpit.
    + intros c Hin Ha. apply in_app_or in Hin. apply in_or_app.
      destruct Hin as [Hin | [Heq | Hin]]; [left; exact Hin | | right; right; exact Hin].
      subst. congruence.
  - split.
    + eexists. split; [apply in_or_app; right; left; reflexivity|].
      apply Hpit.
    + intros c Hin _. apply in_or_app. left. exact Hin.
Qed.

Lemma spawnPit_places_offscreen_witness :
  gameOver demoScene = false /\ 0 <= 120 /\
  exists pit, In pit (spawnPit 800 120 demoScene [pitAt 300 true]) /\
              bounds_left pit == 820.
Proof.
  assert (Hw : 0 <= 120) by (vm_compute; discriminate).
  split; [reflexivity|]. split; [exact Hw|].
  destruct (spawnPit_places_offscreen 800 120 demoScene [pitAt 300 true]
              eq_refl Hw) as [(pit & Hin & _ & _ & _ & Hl & _) _].
  exists pit. split; [exact Hin|]. rewrite Hl. reflexivity.
Defined.

(** X19. A pit that has scrolled off the left edge is swept into the pool, and
    the next [spawnPit] of the run takes it from there: the group does not
    grow. *)
Theorem pit_slot_is_reused_after_sweep (width pitWidth : Q) (s : Scene)
  (group : list Child) (c : Child) :
  gameOver s = false ->
  In c group -> child_active c = true -> bounds_right c < 0 ->
  length (spawnPit width pitWidth s (despawnOffscreenObjects group)) =
  length group.
Proof.
  intros Hg Hin Ha Hlt.
  destruct (spawnPit_counts width pitWidth s
              (despawnOffscreenObjects group) Hg) as (_ & Hreuse & _).
  cbv zeta in Hreuse.
  rewrite Hreuse; [apply despawnOffscreenObjects_length|].
  rewrite despawnOffscreenObjects_length.
  unfold count_active.
  clear Hreuse. induction group as [|a rest IH]; [destruct Hin|].
  cbn [despawnOffscreenObjects map filter length].
  fold (despawnOffscreenObjects rest).
  destruct Hin as [-> | Hin].
  - rewrite Ha. apply Qltb_lt in Hlt. rewrite Hlt. cbn.
    pose proof (filter_length_le child_active (despawnOffscreenObjects rest))
      as H.
    rewrite despawnOffscreenObjects_length in H. lia.
  - specialize (IH Hin).
    destruct (child_active
                (if child_active a && Qltb (bounds_right a) 0
                 then despawn a else a)); cbn [length]; lia.
Qed.

Lemma pit_slot_is_reused_after_sweep_witness :
  let group := [pitAt 300 true; pitAt (-80) true] in
  gameOver demoScene = false /\ bounds_right (pitAt (-80) true) < 0 /\
  length (spawnPit 800 120 demoScene (despawnOffscreenObjects group)) = 2%nat.
Proof.
  intros group.
  assert (Hlt : bounds_right (pitAt (-80) true) < 0)
    by (vm_compute; reflexivity).
  split; [reflexivity|]. split; [exact Hlt|].
  exact (pit_slot_is_reused_after_sweep 800 120 demoScene group
           (pitAt (-80) true) eq_refl (or_intror (or_introl eq_refl))
           eq_refl Hlt).
Defined.

(** ** Texture processing *)

Lemma list_ind4 (P : list Z -> Prop) :
  P [] -> (forall a, P [a]) -> (forall a b, P [a; b]) ->
  (forall a b c, P [a; b; c]) ->
  (forall a b c d rest, P rest -> P (a :: b :: c :: d :: rest)) ->
  forall l, P l.
Proof.
  intros H0 H1 H2 H3 H4. fix IH 1.
  intros [|a [|b [|c [|d rest]]]];
    [exact H0 | apply H1 | apply H2 | apply H3 | apply H4; apply IH].
Qed.

Lemma clearBackground_length (r g b : Z) (data : list Z) :
  length (clearBackground r g b data) = length data.
Proof.
  induction data as [| | | |pr pg pb pa rest IH] using list_ind4;
    try reflexivity.
  cbn [clearBackground length]. rewrite IH. reflexivity.
Qed.

(** X20. The pixel loop on the image data, byte by byte: the length is kept;
    the three colour bytes of every pixel are kept; the alpha byte of a
    pixel becomes 0 when each of its colour bytes is less than 30 away
    from the key colour and is kept otherwise. *)
Theorem clearBackground_only_clears_alpha (r g b : Z) (data : list Z) :
  let out := clearBackground r g b data in
  length out = length data /\
  (forall i, (i mod 4 <> 3)%nat -> nth i out 0%Z = nth i data 0%Z) /\
  (forall k, (4 * k + 3 < length data)%nat ->
     nth (4 * k + 3) out 0%Z =
     if isBackground r g b (nth (4 * k) data 0%Z) (nth (4 * k + 1) data 0%Z)
                           (nth (4 * k + 2) data 0%Z)
     then 0%Z else nth (4 * k + 3) data 0%Z).
Proof.
  cbv zeta. split; [apply clearBackground_length|].
  induction data as [| | | |pr pg pb pa rest IH] using list_ind4;
    try (split; [reflexivity | intros k Hk; cbn in Hk; lia]).
  destruct IH as [IH1 IH2]. split.
  - intros i Hi. cbn [clearBackground].
    destruct i as [|[|[|[|i]]]]; try reflexivity.
    + exfalso. apply Hi. reflexivity.
    + cbn [nth]. apply IH1. intros Hm. apply Hi.
      replace (S (S (S (S i)))) with (i + 1 * 4)%nat by lia.
      rewrite Nat.Div0.mod_add. exact Hm.
  - intros k Hk. cbn [clearBackground].
    destruct k as [|k].
    + reflexivity.
    + replace (4 * S k + 3)%nat with (S (S (S (S (4 * k + 3))))) by lia.
      replace (4 * S k)%nat with (S (S (S (S (4 * k))))) by lia.
      replace (S (S (S (S (4 * k)))) + 1)%nat
        with (S (S (S (S (4 * k + 1))))) by lia.
      replace (S (S (S (S (4 * k)))) + 2)%nat
        with (S (S (S (S (4 * k + 2))))) by lia.
      cbn [nth]. apply IH2. cbn [length] in Hk. lia.
Qed.

(** X21. Processing processed image data changes nothing more. *)
Theorem clearBackground_idempotent (r g b : Z) (data : list Z) :
  clearBackground r g b (clearBackground r g b data) =
  clearBackground r g b data.
Proof.
  induction data as [| | | |pr pg pb pa rest IH] using list_ind4;
    try reflexivity.
  cbn [clearBackground]. rewrite IH.
  destruct (isBackground r g b pr pg pb); reflexivity.
Qed.

Lemma channels_of_rgb (r g b : Z) :
  (0 <= r < 256 -> 0 <= g < 256 -> 0 <= b < 256 ->
   let colorValue := r * 65536 + g * 256 + b in
   channel_r colorValue = r /\ channel_g colorValue = g /\
   channel_b colorValue = b)%Z.
Proof.
  intros Hr Hg Hb. cbv zeta. unfold channel_r, channel_g, channel_b.
  change 255%Z with (Z.ones 8).
  rewrite !Z.land_ones, !Z.shiftr_div_pow2 by lia.
  change (2 ^ 16)%Z with 65536%Z. change (2 ^ 8)%Z with 256%Z.
  repeat split.
  - assert (E : ((r * 65536 + g * 256 + b) / 65536 = r)%Z).
    { symmetry. apply (Z.div_unique _ _ r (g * 256 + b)); lia. }
    rewrite E. apply Z.mod_small. lia.
  - assert (E : ((r * 65536 + g * 256 + b) / 256 = r * 256 + g)%Z).
    { symmetry. apply (Z.div_unique _ _ (r * 256 + g) b); lia. }
    rewrite E. symmetry. apply (Z.mod_unique _ _ r g); lia.
  - symmetry. apply (Z.mod_unique _ _ (r * 256 + g) b); lia.
Qed.

(** X22. The key colour 0xRRGGBB is taken apart into the channels it was made
    of, so a pixel whose colour bytes are each less than 30 away from
    them, the key colour itself included, comes out transparent, with its
    colour bytes unchanged. *)
Theorem removeBackgroundColor_clears_key_colour (r g b : Z)
  (pr pg pb pa : Z) (rest : list Z) :
  (0 <= r < 256)%Z -> (0 <= g < 256)%Z -> (0 <= b < 256)%Z ->
  (Z.abs (pr - r) < 30)%Z -> (Z.abs (pg - g) < 30)%Z ->
  (Z.abs (pb - b) < 30)%Z ->
  let colorValue := (r * 65536 + g * 256 + b)%Z in
  channel_r colorValue = r /\ channel_g colorValue = g /\
  channel_b colorValue = b /\
  removeBackgroundColor colorValue (pr :: pg :: pb :: pa :: rest) =
  pr :: pg :: pb :: 0%Z :: removeBackgroundColor colorValue rest.
Proof.
  intros Hr Hg Hb Dr Dg Db. cbv zeta.
  destruct (channels_of_rgb r g b Hr Hg Hb) as (Er & Eg & Eb).
  cbv zeta in *. split; [exact Er|]. split; [exact Eg|]. split; [exact Eb|].
  unfold removeBackgroundColor. rewrite Er, Eg, Eb.
  cbn [clearBackground]. unfold isBackground.
  apply Z.ltb_lt in Dr, Dg, Db. rewrite Dr, Dg, Db. reflexivity.
Qed.

Lemma removeBackgroundColor_clears_key_colour_witness :
  removeBackgroundColor 255 [0; 0; 255; 255; 10; 20; 250; 255; 200; 0; 0; 255]%Z
  = [0; 0; 255; 0; 10; 20; 250; 0; 200; 0; 0; 255]%Z.
Proof.
  destruct (removeBackgroundColor_clears_key_colour 0 0 255 0 0 255 255
              [10; 20; 250; 255; 200; 0; 0; 255]%Z) as (_ & _ & _ & H);
    try lia.
  cbv zeta in H. change (0 * 65536 + 0 * 256 + 255)%Z with 255%Z in H.
  rewrite H. reflexivity.
Defined.

(** ** Sizes and hitboxes *)

Lemma targetSizes_positive (t : ObjectType) (target : Size) :
  targetSizes t = Some target ->
  0 < size_width target /\ 0 < size_height target.
Proof.
  destruct t; cbn; intros H; inversion H; subst; cbn;
    split; reflexivity.
Qed.

(** X23. [scaleToTargetSize] on a frame of positive size: a type without a
    target size leaves object and scene alone; for the player with saved
    scale data the saved scale is restored to the object and the scene,
    whatever the frame.  Otherwise the scene and the frame are left alone;
    a frame already of the target size keeps the scale it has, and a frame
    of another size gets the quotients target / frame as its scale: both
    positive, below 1 on a side where the frame is larger than the target
    and above 1 where it is smaller. *)
Theorem scaleToTargetSize_result (o : GameObject) (t : ObjectType)
  (s : Scene) :
  0 < go_width o -> 0 < go_height o ->
  let o' := fst (scaleToTargetSize o t s) in
  let s' := snd (scaleToTargetSize o t s) in
  (targetSizes t = None -> o' = o /\ s' = s) /\
  (forall target scaleData,
     targetSizes t = Some target -> is_playerType t = true ->
     data s = Some scaleData ->
     scaleX o' = playerScaleX scaleData /\
     scaleY o' = playerScaleY scaleData /\ playerScale s' = scaleData) /\
  (forall target,
     targetSizes t = Some target ->
     is_playerType t = false \/ data s = None ->
     s' = s /\ go_width o' = go_width o /\ go_height o' = go_height o /\
     (go_width o == size_width target /\ go_height o == size_height target ->
      o' = o) /\
     (~ (go_width o == size_width target /\
         go_height o == size_height target) ->
      scaleX o' = size_width target / go_width o /\
      scaleY o' = size_height target / go_height o /\
      0 < scaleX o' /\ 0 < scaleY o' /\
      (size_width target < go_width o -> scaleX o' < 1) /\
      (go_width o < size_width target -> 1 < scaleX o') /\
      (size_height target < go_height o -> scaleY o' < 1) /\
      (go_height o < size_height target -> 1 < scaleY o'))).
Proof.
  intros Hw Hh. cbv zeta. unfold scaleToTargetSize.
  split; [intros ->; split; reflexivity|]. split.
  - intros target sd -> -> ->. repeat split.
  - intros target Ht Hcase.
    destruct (targetSizes_positive t target Ht) as [Htw Hth].
    rewrite Ht.
    assert (E : (if is_playerType t then data s else None) = None).
    { destruct Hcase as [-> | ->]; [reflexivity|].
      destruct (is_playerType t); reflexivity. }
    rewrite E.
    assert (Hquot : forall a b, 0 < a -> 0 < b ->
              0 < a / b /\ (a < b -> a / b < 1) /\ (b < a -> 1 < a / b)).
    { intros a b Ha Hb. split; [|split].
      - apply Qlt_shift_div_l; [exact Hb | lra].
      - intros Hlt. apply Qlt_shift_div_r; [exact Hb | lra].
      - intros Hlt. apply Qlt_shift_div_l; [exact Hb | lra]. }
    destruct (Hquot _ _ Htw Hw) as (Px & Sx & Lx).
    destruct (Hquot _ _ Hth Hh) as (Py & Sy & Ly).
    destruct (Qeq_bool (go_width o) (size_width target)) eqn:E1;
      [apply Qeq_bool_iff in E1 | apply Qeq_bool_neq in E1];
      (destruct (Qeq_bool (go_height o) (size_height target)) eqn:E2;
       [apply Qeq_bool_iff in E2 | apply Qeq_bool_neq in E2]);
      cbn [negb orb fst snd setScale go_width go_height scaleX scaleY];
      (split; [reflexivity|]); (split; [reflexivity|]);
      (split; [reflexivity|]).
    + split; [intros _; reflexivity|].
      intros Hn; exfalso; apply Hn; split; assumption.
    + split; [intros [_ H]; contradiction|].
      intros _. repeat split; assumption.
    + split; [intros [H _]; contradiction|].
      intros _. repeat split; assumption.
    + split; [intros [H _]; contradiction|].
      intros _. repeat split; assumption.
Qed.

Lemma scaleToTargetSize_result_witness :
  let o := {| go_width := 64; go_height := 32; scaleX := 1; scaleY := 1 |} in
  let o' := fst (scaleToTargetSize o enemyType demoScene) in
  0 < go_width o /\ 0 < go_height o /\
  scaleX o' = 30 / 64 /\ scaleX o' < 1 /\ 1 < scaleY o'.
Proof.
  intros o o'.
  assert (Hw : 0 < go_width o) by reflexivity.
  assert (Hh : 0 < go_height o) by reflexivity.
  split; [exact Hw|]. split; [exact Hh|].
  destruct (scaleToTargetSize_result o enemyType demoScene Hw Hh)
    as (_ & _ & H).
  destruct (H {| size_width := 30; size_height := 40 |} eq_refl
              (or_introl eq_refl)) as (_ & _ & _ & _ & Hd).
  destruct Hd as (Hx & _ & _ & _ & Sx & _ & _ & Ly).
  { intros [H1 _]. vm_compute in H1. discriminate H1. }
  split; [exact Hx|]. split; [apply Sx; reflexivity | apply Ly; reflexivity].
Defined.

(** X24. The player's hitbox is centred in the frame it is taken from, the
    saved original frame when both its sides are positive and the
    sprite's frame otherwise: twice the offset plus the size of the
    hitbox is the side of that frame, the hitbox taking 60 percent of the
    width and 85 percent of the height. *)
Theorem setupPlayerHitbox_centred (w h : Q) (s : Scene) :
  let hb := setupPlayerHitbox w h s in
  let ow := playerOriginalWidth (playerScale s) in
  let oh := playerOriginalHeight (playerScale s) in
  (0 < ow /\ 0 < oh ->
   offsetX hb + hitboxWidth hb + offsetX hb == ow /\
   offsetY hb + hitboxHeight hb + offsetY hb == oh /\
   hitboxWidth hb == 0.6 * ow /\ hitboxHeight hb == 0.85 * oh) /\
  (~ (0 < ow /\ 0 < oh) ->
   offsetX hb + hitboxWidth hb + offsetX hb == w /\
   offsetY hb + hitboxHeight hb + offsetY hb == h /\
   hitboxWidth hb == 0.6 * w /\ hitboxHeight hb == 0.85 * h).
Proof.
  cbv zeta. unfold setupPlayerHitbox.
  set (ow := playerOriginalWidth (playerScale s)).
  set (oh := playerOriginalHeight (playerScale s)).
  assert (Hhalf : forall x, x / 2 == x * (1 # 2)) by (intros; reflexivity).
  destruct (Qltb 0 ow) eqn:E1; destruct (Qltb 0 oh) eqn:E2;
    cbn [andb hitboxWidth hitboxHeight offsetX offsetY]; Qprops;
    (split; [intros [H1 H2] | intros Hn]);
    try (exfalso; lra); try (exfalso; apply Hn; split; assumption);
    rewrite !Hhalf; repeat split; lra.
Qed.


(** ** Twenty pickups *)

Lemma after_cons (e : Event) (evs : list Event) (s : Scene) :
  after (e :: evs) s = after evs (step e s).
Proof. reflexivity. Qed.

Lemma pickups_below_twenty (l : list (Q * PowerUpType)) : forall s : Scene,
  powerUpActive (powerUp s) = false ->
  (coinsCollectedForPowerUp (scoring s) + Z.of_nat (length l) < 20)%Z ->
  let s' := after (pickupEvents l) s in
  powerUpActive (powerUp s') = false /\
  coinsCollectedForPowerUp (scoring s') =
    (coinsCollectedForPowerUp (scoring s) + Z.of_nat (length l))%Z.
Proof.
  induction l as [|[now pick] rest IH]; intros s Ha Hn.
  - cbn. split; [exact Ha | lia].
  - cbn [length] in Hn.
    pose proof (collectCoin_powerUp now pick (player s)
                  {| coin_active := true |} s eq_refl) as H.
    cbv zeta in H. rewrite Ha in H. cbn [negb andb] in H.
    assert (E : (20 <=? coinsCollectedForPowerUp (scoring s) + 1)%Z = false)
      by (apply Z.leb_gt; lia).
    rewrite E in H. destruct H as (Hp & Hk & _).
    change (pickupEvents ((now, pick) :: rest))
      with (CoinOverlap now pick {| coin_active := true |}
            :: pickupEvents rest).
    rewrite after_cons. cbn [step].
    destruct (IH (collectCoin now pick (player s) {| coin_active := true |} s))
      as (IH1 & IH2).
    + rewrite Hp. exact Ha.
    + rewrite Hk. lia.
    + cbv zeta. split; [exact IH1|]. rewrite IH2, Hk. cbn [length]. lia.
Qed.

(** X5. From a scene without a power-up and with the pickup counter at 0,
    nineteen pickups, at any times, trigger nothing and leave the counter
    at 19; the twentieth activates the power-up of the type drawn then and
    puts the counter back to 0. *)
Theorem twentieth_pickup_triggers (l : list (Q * PowerUpType)) (s : Scene)
  (now : Q) (pick : PowerUpType) :
  powerUpActive (powerUp s) = false ->
  coinsCollectedForPowerUp (scoring s) = 0%Z ->
  length l = 19%nat ->
  let s19 := after (pickupEvents l) s in
  let s20 := step (CoinOverlap now pick {| coin_active := true |}) s19 in
  powerUpActive (powerUp s19) = false /\
  coinsCollectedForPowerUp (scoring s19) = 19%Z /\
  powerUp s20 = {| powerUpActive := true; activePowerUpType := Some pick |} /\
  coinsCollectedForPowerUp (scoring s20) = 0%Z.
Proof.
  intros Ha Hk Hl.
  destruct (pickups_below_twenty l s Ha) as (H1 & H2).
  { rewrite Hk, Hl. lia. }
  cbv zeta in *. rewrite Hk, Hl in H2.
  split; [exact H1|]. split; [exact H2|].
  cbn [step].
  pose proof (collectCoin_powerUp now pick
                (player (after (pickupEvents l) s))
                {| coin_active := true |} (after (pickupEvents l) s)
                eq_refl) as H.
  cbv zeta in H. rewrite H1, H2 in H. cbn in H.
  destruct H as (Hp & Hc & _). split; assumption.
Qed.

Lemma twentieth_pickup_triggers_witness :
  let l := map (fun k => (inject_Z (2000 * Z.of_nat k), speed)) (seq 1 19) in
  powerUpActive (powerUp demoScene) = false /\
  length l = 19%nat /\
  powerUp (step (CoinOverlap 40000 shield {| coin_active := true |})
                (after (pickupEvents l) demoScene)) =
  {| powerUpActive := true; activePowerUpType := Some shield |}.
Proof.
  intros l. split; [reflexivity|]. split; [reflexivity|].
  exact (proj1 (proj2 (proj2 (twentieth_pickup_triggers l demoScene 40000
                                shield eq_refl eq_refl eq_refl)))).
Defined.

(** ** The ramp and the frame rate *)

Lemma Qmin_min_add (a m y : Q) :
  0 <= y -> Qmin (Qmin a m + y) m == Qmin (a + y) m.
Proof.
  intros Hy.
  destruct (Q.min_spec a m) as [[H1 E1] | [H1 E1]];
    destruct (Q.min_spec (Qmin a m + y) m) as [[H2 E2] | [H2 E2]];
    destruct (Q.min_spec (a + y) m) as [[H3 E3] | [H3 E3]];
    rewrite E2, E3; lra.
Qed.

Lemma Qmax_max_sub (a m y : Q) :
  0 <= y -> Qmax (Qmax a m - y) m == Qmax (a - y) m.
Proof.
  intros Hy.
  destruct (Q.max_spec a m) as [[H1 E1] | [H1 E1]];
    destruct (Q.max_spec (Qmax a m - y) m) as [[H2 E2] | [H2 E2]];
    destruct (Q.max_spec (a - y) m) as [[H3 E3] | [H3 E3]];
    rewrite E2, E3; lra.
Qed.

Lemma Qmin_eq_l (a a' m : Q) : a == a' -> Qmin a m == Qmin a' m.
Proof.
  intros E.
  destruct (Q.min_spec a m) as [[H1 E1] | [H1 E1]];
    destruct (Q.min_spec a' m) as [[H2 E2] | [H2 E2]];
    rewrite E1, E2; lra.
Qed.

Lemma Qmax_eq_l (a a' m : Q) : a == a' -> Qmax a m == Qmax a' m.
Proof.
  intros E.
  destruct (Q.max_spec a m) as [[H1 E1] | [H1 E1]];
    destruct (Q.max_spec a' m) as [[H2 E2] | [H2 E2]];
    rewrite E1, E2; lra.
Qed.

Lemma difficulty_frame (f : Frame) (s : Scene) :
  gameOver s = false ->
  in_world (scale_height s) (f_body f) ->
  gameOver (frame f s) = false /\
  scale_height (frame f s) = scale_height s /\
  scrollSpeed (difficulty (frame f s)) =
    Qmin (scrollSpeed (difficulty s) + speedIncreaseFactor * (f_delta f / 1000))
         maxScrollSpeed /\
  spawnDelay (difficulty (frame f s)) =
    Qmax (spawnDelay (difficulty s) - spawnDecreaseFactor * (f_delta f / 1000))
         minSpawnDelay.
Proof.
  intros Hg Hw. rewrite (frame_movement f s Hg Hw).
  destruct (movement_static (f_delta f) (f_jump f) (f_down f)
              (set_player (f_body f) s)) as (_ & _ & Hs & Hgo).
  rewrite scrollSpeed_increaseDifficulty, spawnDelay_increaseDifficulty.
  rewrite difficulty_movement.
  split; [exact (eq_trans Hgo Hg)|]. split; [exact Hs|].
  split; reflexivity.
Qed.

(** The ramp in the exact arithmetic of the model: after any frames of an
    active run with the character inside the world, started with the two
    values within their caps, the scroll speed is min(speed at the start
    + 6 per second of the summed deltas, 750) and the spawn delay
    max(delay at the start - 18 per second, 400).  The code adds in
    doubles and rounds at every frame, so its values follow this form up
    to rounding only; it is used below with a margin. *)
Lemma ramp_closed_form (fs : list Frame) : forall s : Scene,
  gameOver s = false ->
  scrollSpeed (difficulty s) <= maxScrollSpeed ->
  minSpawnDelay <= spawnDelay (difficulty s) ->
  Forall (sane_frame (scale_height s)) fs ->
  scrollSpeed (difficulty (frames fs s)) ==
    Qmin (scrollSpeed (difficulty s)
          + speedIncreaseFactor * (sum_delta fs / 1000)) maxScrollSpeed /\
  spawnDelay (difficulty (frames fs s)) ==
    Qmax (spawnDelay (difficulty s)
          - spawnDecreaseFactor * (sum_delta fs / 1000)) minSpawnDelay.
Proof.
  assert (Hdiv : forall x, x / 1000 == x * (1 # 1000))
    by (intros; reflexivity).
  unfold speedIncreaseFactor, spawnDecreaseFactor.
  induction fs as [|f rest IH]; intros s Hg Hs Hd Hsane.
  - change (frames [] s) with s. change (sum_delta []) with 0.
    split.
    + rewrite Q.min_l; rewrite Hdiv; lra.
    + rewrite Q.max_l; rewrite Hdiv; lra.
  - inversion Hsane as [|? ? [Hdf Hw] Hrest]; subst.
    destruct (difficulty_frame f s Hg Hw) as (Hg1 & Hh1 & Hs1 & Hd1).
    unfold speedIncreaseFactor, spawnDecreaseFactor in Hs1, Hd1.
    pose proof (sum_delta_nonneg _ _ Hrest) as Hnn.
    pose proof (Qdiv1000_nonneg _ Hnn) as Hnn'.
    change (frames (f :: rest) s) with (frames rest (frame f s)).
    destruct (IH (frame f s) Hg1) as (IHs & IHd).
    + rewrite Hs1. apply Q.le_min_r.
    + rewrite Hd1. apply Q.le_max_r.
    + rewrite Hh1. exact Hrest.
    + rewrite sum_delta_cons. split.
      * rewrite IHs, Hs1.
        rewrite Qmin_min_add by lra.
        apply Qmin_eq_l. rewrite !Hdiv. lra.
      * rewrite IHd, Hd1.
        rewrite Qmax_max_sub by lra.
        apply Qmax_eq_l. rewrite !Hdiv. lra.
Qed.

(** X14. How long the ramp takes.  In an active run started from the base
    values of [create], with the character inside the world: as long as
    the frame deltas sum to at most 83 seconds the scroll speed is below
    its cap of 750, and once they sum to 84 seconds or more it is at the
    cap; the spawn delay is above its floor of 400 as long as they sum to
    at most 72 seconds, and at the floor once they sum to 73 seconds or
    more. *)
Theorem ramp_saturation_times (fs : list Frame) (s : Scene) :
  gameOver s = false ->
  scrollSpeed (difficulty s) == baseScrollSpeed ->
  spawnDelay (difficulty s) == baseSpawnDelay ->
  Forall (sane_frame (scale_height s)) fs ->
  let s' := frames fs s in
  (sum_delta fs <= 83000 -> scrollSpeed (difficulty s') < maxScrollSpeed) /\
  (84000 <= sum_delta fs -> scrollSpeed (difficulty s') == maxScrollSpeed) /\
  (sum_delta fs <= 72000 -> minSpawnDelay < spawnDelay (difficulty s')) /\
  (73000 <= sum_delta fs -> spawnDelay (difficulty s') == minSpawnDelay).
Proof.
  intros Hg Hs Hd Hsane. cbv zeta.
  unfold baseScrollSpeed, baseSpawnDelay in *.
  destruct (ramp_closed_form fs s Hg) as [Es Ed];
    [unfold maxScrollSpeed; lra | unfold minSpawnDelay; lra | exact Hsane |].
  assert (Hdiv : sum_delta fs / 1000 == sum_delta fs * (1 # 1000))
    by reflexivity.
  unfold speedIncreaseFactor, spawnDecreaseFactor, maxScrollSpeed,
    minSpawnDelay in *.
  rewrite Es, Ed, Hdiv.
  destruct (Q.min_spec (scrollSpeed (difficulty s)
                        + 6 * (sum_delta fs * (1 # 1000))) 750)
    as [[H1 E1] | [H1 E1]];
    destruct (Q.max_spec (spawnDelay (difficulty s)
                          - 18 * (sum_delta fs * (1 # 1000))) 400)
    as [[H2 E2] | [H2 E2]];
    rewrite E1, E2; repeat split; intros Ht; lra.
Qed.

Lemma ramp_saturation_times_witness :
  let fs := map (fun k => coastFrame (inject_Z (Z.of_nat k) * 16) 16)
                (seq 1 (Z.to_nat 5250)) in
  gameOver demoScene = false /\
  Forall (sane_frame (scale_height demoScene)) fs /\
  84000 <= sum_delta fs /\
  scrollSpeed (difficulty (frames fs demoScene)) == maxScrollSpeed /\
  spawnDelay (difficulty (frames fs demoScene)) == minSpawnDelay.
Proof.
  intros fs.
  assert (Hsane : Forall (sane_frame (scale_height demoScene)) fs).
  { apply Forall_forall. intros f Hin. apply in_map_iff in Hin.
    destruct Hin as (k & <- & _).
    split; [|split]; vm_compute; discriminate. }
  assert (Hsum : 84000 <= sum_delta fs) by (vm_compute; discriminate).
  assert (Hsum' : 73000 <= sum_delta fs) by (vm_compute; discriminate).
  split; [reflexivity|]. split; [exact Hsane|]. split; [exact Hsum|].
  destruct (ramp_saturation_times fs demoScene eq_refl) as (_ & H1 & _ & H2);
    [reflexivity | reflexivity | exact Hsane |].
  split; [exact (H1 Hsum) | exact (H2 Hsum')].
Defined.
